(** * Idempotency Shield: a shallow embedding of the Go service in Rocq

    The record store (PostgreSQL table [idempotency_keys]) is a finite map
    from idempotency key to row; each repository method is a function on
    that map. Clock readings are integers (nanoseconds since the epoch).
    Go [int64] arithmetic that may wrap is written out with [wrap64]; Go
    [float64] arithmetic of the duplicate report is Rocq's primitive binary64.
    The [jsonb] column [response_body] goes through a model of PostgreSQL's
    [jsonb] input and output. *)

From Stdlib Require Import ZArith QArith String Ascii Floats.
From stdpp Require Import base gmap strings list pretty sorting.

Open Scope Z_scope.

(* ================================================================== *)
(** ** crypto/sha256: SHA-256 over a byte list (bytes as Z in [0,256)) *)

Module Sha256.

Definition mask32 : Z := 4294967295.
Definition add32 (a b : Z) : Z := (a + b) mod 4294967296.
Definition rotr32 (x n : Z) : Z :=
  Z.land (Z.lor (Z.shiftr x n) (Z.shiftl x (32 - n))) mask32.

Definition ch (x y z : Z) : Z :=
  Z.lxor (Z.land x y) (Z.land (Z.lxor x mask32) z).
Definition maj (x y z : Z) : Z :=
  Z.lxor (Z.lxor (Z.land x y) (Z.land x z)) (Z.land y z).
Definition bsig0 (x : Z) : Z :=
  Z.lxor (Z.lxor (rotr32 x 2) (rotr32 x 13)) (rotr32 x 22).
Definition bsig1 (x : Z) : Z :=
  Z.lxor (Z.lxor (rotr32 x 6) (rotr32 x 11)) (rotr32 x 25).
Definition ssig0 (x : Z) : Z :=
  Z.lxor (Z.lxor (rotr32 x 7) (rotr32 x 18)) (Z.shiftr x 3).
Definition ssig1 (x : Z) : Z :=
  Z.lxor (Z.lxor (rotr32 x 17) (rotr32 x 19)) (Z.shiftr x 10).

(** The round constants, in decimal. *)
Definition K : list Z :=
  [1116352408; 1899447441; 3049323471; 3921009573; 961987163; 1508970993;
   2453635748; 2870763221; 3624381080; 310598401; 607225278; 1426881987;
   1925078388; 2162078206; 2614888103; 3248222580; 3835390401; 4022224774;
   264347078; 604807628; 770255983; 1249150122; 1555081692; 1996064986;
   2554220882; 2821834349; 2952996808; 3210313671; 3336571891; 3584528711;
   113926993; 338241895; 666307205; 773529912; 1294757372; 1396182291;
   1695183700; 1986661051; 2177026350; 2456956037; 2730485921; 2820302411;
   3259730800; 3345764771; 3516065817; 3600352804; 4094571909; 275423344;
   430227734; 506948616; 659060556; 883997877; 958139571; 1322822218;
   1537002063; 1747873779; 1955562222; 2024104815; 2227730452; 2361852424;
   2428436474; 2756734187; 3204031479; 3329325298].

Definition H0 : list Z :=
  [0x6a09e667; 0xbb67ae85; 0x3c6ef372; 0xa54ff53a;
   0x510e527f; 0x9b05688c; 0x1f83d9ab; 0x5be0cd19].

(** [n] big-endian bytes of [x]. *)
Fixpoint be_bytes (n : nat) (x : Z) : list Z :=
  match n with
  | O => []
  | S n' => be_bytes n' (x / 256) ++ [x mod 256]
  end.

(** Message padding: a 1 bit, zeros, and the 64-bit bit length. *)
Definition pad (msg : list Z) : list Z :=
  let l := Z.of_nat (length msg) in
  msg ++ [128] ++ repeat 0 (Z.to_nat ((55 - l) mod 64)) ++ be_bytes 8 (8 * l).

Fixpoint be_words (bs : list Z) : list Z :=
  match bs with
  | a :: b :: c :: d :: rest =>
      (a * 16777216 + b * 65536 + c * 256 + d) :: be_words rest
  | _ => []
  end.

(** Message schedule: extend the 16 block words to 64. *)
Fixpoint schedule (n : nat) (w : list Z) : list Z :=
  match n with
  | O => w
  | S n' =>
      let t := length w in
      let wi := add32 (add32 (add32 (nth (t - 16) w 0) (ssig0 (nth (t - 15) w 0)))
                             (nth (t - 7) w 0)) (ssig1 (nth (t - 2) w 0)) in
      schedule n' (w ++ [wi])
  end.

Definition round (st : list Z) (kw : Z * Z) : list Z :=
  match st with
  | [a; b; c; d; e; f; g; h] =>
      let t1 := add32 (add32 (add32 (add32 h (bsig1 e)) (ch e f g)) kw.1) kw.2 in
      let t2 := add32 (bsig0 a) (maj a b c) in
      [add32 t1 t2; a; b; c; add32 d t1; e; f; g]
  | _ => st
  end.

Definition block (hs blk : list Z) : list Z :=
  let w := schedule 48 (be_words blk) in
  zip_with add32 hs (fold_left round (combine K w) hs).

Fixpoint blocks (fuel : nat) (hs bs : list Z) : list Z :=
  match fuel with
  | O => hs
  | S f =>
      match bs with
      | [] => hs
      | _ => blocks f (block hs (firstn 64 bs)) (skipn 64 bs)
      end
  end.

(** [sha256.Sum256]: the 32-byte digest. *)
Definition Sum256 (msg : list Z) : list Z :=
  let p := pad msg in
  flat_map (be_bytes 4) (blocks (length p) H0 p).

End Sha256.

(* ================================================================== *)
(** ** Strings as bytes, hexadecimal and decimal formatting *)

(** [[]byte(s)]: a Rocq string is a list of 8-bit characters. *)
Definition bytes_of_string (s : string) : list Z :=
  map (fun a => Z.of_nat (nat_of_ascii a)) (list_ascii_of_string s).

Definition hex_digit (n : Z) : ascii :=
  match String.get (Z.to_nat n) "0123456789abcdef" with
  | Some a => a
  | None => "0"%char
  end.

(** [fmt.Sprintf("%x", h)] for a byte array: two lowercase digits per byte. *)
Fixpoint hex_of_bytes (bs : list Z) : string :=
  match bs with
  | [] => EmptyString
  | b :: rest => String (hex_digit (b / 16)) (String (hex_digit (b mod 16)) (hex_of_bytes rest))
  end.

(** [fmt.Sprintf("%d", n)]: decimal with a leading minus sign when
    negative; stdpp's [pretty] on [Z] prints exactly that. *)
Definition fmt_d (n : Z) : string := pretty n.

(* ================================================================== *)
(** ** PostgreSQL: text parameters and the [jsonb] type

    The repository sends statement parameters as text. The server (UTF8
    database and client encoding) first checks each one as UTF8
    ([pg_verify_mbstr]: well-formed sequences, no NUL byte), then converts
    it with the input function of the column's type. For the [jsonb] column
    [response_body] that is [jsonb_in]: the JSON lexer and parser of
    [common/jsonapi.c], [numeric_in] for numbers, and the normalization of
    objects (one pair per key, the last one written, keys ordered by length
    then bytes). Reading the column back gives the text of [JsonbToCString].
    A parameter the server refuses makes the statement fail. Not modeled:
    the size limits of a value (1 GB text, 256 MB [jsonb]) and the nesting
    depth allowed by [max_stack_depth]; the concrete values here are far
    below both. *)

(** A text read back from the server, byte by byte. *)
Definition string_of_bytes (bs : list Z) : string :=
  fold_right (fun b s => String (ascii_of_N (Z.to_N b)) s) EmptyString bs.

Definition utf8_cont (b : Z) : bool := (128 <=? b) && (b <=? 191).

(** [pg_verify_mbstr] for UTF8: each character by [pg_utf_mblen] and
    [pg_utf8_islegal]; a NUL byte is refused. *)
Fixpoint utf8_valid (bs : list Z) : bool :=
  match bs with
  | [] => true
  | b :: r =>
      if b =? 0 then false
      else if b <? 128 then utf8_valid r
      else if (194 <=? b) && (b <=? 223) then
        match r with
        | c1 :: r1 => utf8_cont c1 && utf8_valid r1
        | [] => false
        end
      else if (224 <=? b) && (b <=? 239) then
        match r with
        | c1 :: c2 :: r2 =>
            (if b =? 224 then (160 <=? c1) && (c1 <=? 191)
             else if b =? 237 then (128 <=? c1) && (c1 <=? 159)
             else utf8_cont c1) && utf8_cont c2 && utf8_valid r2
        | _ => false
        end
      else if (240 <=? b) && (b <=? 244) then
        match r with
        | c1 :: c2 :: c3 :: r3 =>
            (if b =? 240 then (144 <=? c1) && (c1 <=? 191)
             else if b =? 244 then (128 <=? c1) && (c1 <=? 143)
             else utf8_cont c1) && utf8_cont c2 && utf8_cont c3 && utf8_valid r3
        | _ => false
        end
      else false
  end.

(** A text parameter the server accepts. *)
Definition pg_text_ok (s : string) : bool := utf8_valid (bytes_of_string s).

(** A [numeric] value: [(-1)^num_neg * num_digits / 10^num_dscale], with
    [num_dscale] its display scale and no negative zero. *)
Record numeric := mk_numeric {
  num_neg : bool;
  num_digits : Z;
  num_dscale : Z
}.

(** A parsed [jsonb] value; strings are byte lists. *)
#[warnings="-register-all"]
Inductive json :=
  | JNull
  | JBool (b : bool)
  | JNumber (n : numeric)
  | JString (s : list Z)
  | JArray (items : list json)
  | JObject (pairs : list (list Z * json)).

(** The tokens of the JSON lexer ([json_lex]). *)
Inductive token :=
  | TLBrace | TRBrace | TLBracket | TRBracket | TComma | TColon
  | TString (s : list Z) | TNumber (n : numeric) | TTrue | TFalse | TNull.

Definition is_ws (b : Z) : bool := (b =? 32) || (b =? 9) || (b =? 10) || (b =? 13).

Definition is_digit (b : Z) : bool := (48 <=? b) && (b <=? 57).

(** [JSON_ALPHANUMERIC_CHAR]. *)
Definition is_alnum (b : Z) : bool :=
  ((97 <=? b) && (b <=? 122)) || ((65 <=? b) && (b <=? 90)) || is_digit b
  || (b =? 95) || (128 <=? b).

Fixpoint skip_ws (bs : list Z) : list Z :=
  match bs with
  | b :: r => if is_ws b then skip_ws r else bs
  | [] => []
  end.

Fixpoint span_digits (bs : list Z) : list Z * list Z :=
  match bs with
  | b :: r => if is_digit b then let '(d, r') := span_digits r in (b :: d, r') else ([], bs)
  | [] => ([], [])
  end.

Fixpoint span_alnum (bs : list Z) : list Z * list Z :=
  match bs with
  | b :: r => if is_alnum b then let '(d, r') := span_alnum r in (b :: d, r') else ([], bs)
  | [] => ([], [])
  end.

Definition hex_val (b : Z) : option Z :=
  if is_digit b then Some (b - 48)
  else if (97 <=? b) && (b <=? 102) then Some (b - 87)
  else if (65 <=? b) && (b <=? 70) then Some (b - 55)
  else None.

(** [unicode_to_utf8]. *)
Definition utf8_encode (c : Z) : list Z :=
  if c <=? 127 then [c]
  else if c <=? 2047 then [192 + Z.shiftr c 6; 128 + Z.land c 63]
  else if c <=? 65535 then
    [224 + Z.shiftr c 12; 128 + Z.land (Z.shiftr c 6) 63; 128 + Z.land c 63]
  else [240 + Z.shiftr c 18; 128 + Z.land (Z.shiftr c 12) 63;
        128 + Z.land (Z.shiftr c 6) 63; 128 + Z.land c 63].

(** The one-character escapes of [json_lex_string]. *)
Definition simple_escape (e : Z) : option Z :=
  if (e =? 34) || (e =? 92) || (e =? 47) then Some e
  else if e =? 98 then Some 8
  else if e =? 102 then Some 12
  else if e =? 110 then Some 10
  else if e =? 114 then Some 13
  else if e =? 116 then Some 9
  else None.

(** [json_lex_string] with its escapes decoded, after the opening quote:
    the string's bytes and the input after the closing quote. [hi] is a
    pending high surrogate, [acc] the bytes so far, reversed. *)
Fixpoint lex_string (hi : option Z) (acc : list Z) (bs : list Z)
    : option (list Z * list Z) :=
  match bs with
  | [] => None
  | b :: r =>
      if b =? 34 then
        match hi with None => Some (rev acc, r) | Some _ => None end
      else if b =? 92 then
        match r with
        | [] => None
        | e :: r' =>
            if e =? 117 then
              match r' with
              | h1 :: h2 :: h3 :: h4 :: r'' =>
                  match hex_val h1, hex_val h2, hex_val h3, hex_val h4 with
                  | Some d1, Some d2, Some d3, Some d4 =>
                      let ch := ((d1 * 16 + d2) * 16 + d3) * 16 + d4 in
                      if (55296 <=? ch) && (ch <=? 56319) then
                        match hi with
                        | Some _ => None
                        | None => lex_string (Some ch) acc r''
                        end
                      else if (56320 <=? ch) && (ch <=? 57343) then
                        match hi with
                        | None => None
                        | Some h =>
                            let cp := Z.shiftl (Z.land h 1023) 10 + 65536 + Z.land ch 1023 in
                            lex_string None (rev (utf8_encode cp) ++ acc) r''
                        end
                      else
                        match hi with
                        | Some _ => None
                        | None =>
                            if ch =? 0 then None
                            else lex_string None (rev (utf8_encode ch) ++ acc) r''
                        end
                  | _, _, _, _ => None
                  end
              | _ => None
              end
            else
              match hi with
              | Some _ => None
              | None =>
                  match simple_escape e with
                  | Some c => lex_string None (c :: acc) r'
                  | None => None
                  end
              end
        end
      else
        match hi with
        | Some _ => None
        | None => if b <? 32 then None else lex_string None (b :: acc) r
        end
  end.

Definition digits_value (ds : list Z) : Z := fold_left (fun n d => n * 10 + (d - 48)) ds 0.

Fixpoint drop_zeros (ds : list Z) : list Z :=
  match ds with
  | d :: r => if d =? 48 then drop_zeros r else ds
  | [] => []
  end.

(** [numeric_in] on a JSON number: [ds] its digits (integer part then
    fraction), [f] the number of fraction digits, [e] the exponent. The
    display scale is [max 0 (f - e)]; [make_result] refuses a display scale
    above [0x3FFF] or a base-10000 weight outside [int16]. *)
Definition numeric_in (neg : bool) (ds : list Z) (f e : Z) : option numeric :=
  let D := digits_value ds in
  let dscale := Z.max 0 (f - e) in
  if 16383 <? dscale then None
  else if D =? 0 then Some (mk_numeric false 0 dscale)
  else
    let weight := (Z.of_nat (length (drop_zeros ds)) - 1 + e - f) / 4 in
    if (weight <? -32768) || (32767 <? weight) then None
    else Some (mk_numeric neg (D * 10 ^ (e - f + dscale)) dscale).

(** [json_lex_number], after the optional minus sign: the integer part, a
    lone [0] or digits not starting with [0]. *)
Definition lex_int_part (bs : list Z) : option (list Z * list Z) :=
  match bs with
  | b :: r =>
      if b =? 48 then Some ([b], r)
      else if is_digit b then let '(d, r') := span_digits r in Some (b :: d, r')
      else None
  | [] => None
  end.

(** The fraction: none, or [.] and at least one digit. *)
Definition lex_frac_part (bs : list Z) : option (list Z * list Z) :=
  match bs with
  | b :: r =>
      if b =? 46 then
        match span_digits r with
        | ([], _) => None
        | (d, r') => Some (d, r')
        end
      else Some ([], bs)
  | [] => Some ([], [])
  end.

(** The exponent's optional sign. *)
Definition exp_sign (bs : list Z) : bool * list Z :=
  match bs with
  | s :: r => if s =? 45 then (true, r) else if s =? 43 then (false, r) else (false, bs)
  | [] => (false, [])
  end.

(** The exponent: none, or [e]/[E], a sign, and at least one digit; its
    digits may not exceed [PG_INT32_MAX / 2] ([numeric_in]). *)
Definition lex_exp_part (bs : list Z) : option (Z * list Z) :=
  match bs with
  | b :: r =>
      if (b =? 101) || (b =? 69) then
        let '(eneg, r1) := exp_sign r in
        match span_digits r1 with
        | ([], _) => None
        | (d, r2) =>
            let v := digits_value d in
            if 1073741823 <? v then None else Some (if eneg then - v else v, r2)
        end
      else Some (0, bs)
  | [] => Some (0, [])
  end.

(** The number may not run on into letters or digits. *)
Definition number_end_ok (bs : list Z) : bool :=
  match bs with
  | b :: _ => negb (is_alnum b)
  | [] => true
  end.

(** A number token, then [numeric_in] on it. *)
Definition lex_number (neg : bool) (bs : list Z) : option (numeric * list Z) :=
  match lex_int_part bs with
  | None => None
  | Some (ip, r1) =>
      match lex_frac_part r1 with
      | None => None
      | Some (fp, r2) =>
          match lex_exp_part r2 with
          | None => None
          | Some (e, r3) =>
              if number_end_ok r3 then
                match numeric_in neg (ip ++ fp) (Z.of_nat (length fp)) e with
                | Some n => Some (n, r3)
                | None => None
                end
              else None
          end
      end
  end.

(** [json_lex], token after token; [fuel] bounds the number of tokens. *)
Fixpoint lex_tokens (fuel : nat) (bs : list Z) : option (list token) :=
  match fuel with
  | O => None
  | S fuel' =>
      match skip_ws bs with
      | [] => Some []
      | b :: r =>
          let continue t rest := option_map (cons t) (lex_tokens fuel' rest) in
          if b =? 123 then continue TLBrace r
          else if b =? 125 then continue TRBrace r
          else if b =? 91 then continue TLBracket r
          else if b =? 93 then continue TRBracket r
          else if b =? 44 then continue TComma r
          else if b =? 58 then continue TColon r
          else if b =? 34 then
            match lex_string None [] r with
            | Some (s, r') => continue (TString s) r'
            | None => None
            end
          else if b =? 45 then
            match lex_number true r with
            | Some (n, r') => continue (TNumber n) r'
            | None => None
            end
          else if is_digit b then
            match lex_number false (b :: r) with
            | Some (n, r') => continue (TNumber n) r'
            | None => None
            end
          else
            let '(w, r') := span_alnum (b :: r) in
            if bool_decide (w = bytes_of_string "true") then continue TTrue r'
            else if bool_decide (w = bytes_of_string "false") then continue TFalse r'
            else if bool_decide (w = bytes_of_string "null") then continue TNull r'
            else None
      end
  end.

(** The key order of [lengthCompareJsonbStringValue]: length, then bytes. *)
Fixpoint bytes_leb (a b : list Z) : bool :=
  match a, b with
  | [], _ => true
  | _ :: _, [] => false
  | x :: a', y :: b' => (x <? y) || ((x =? y) && bytes_leb a' b')
  end.

Definition key_leb (k1 k2 : list Z) : bool :=
  (length k1 <? length k2)%nat || ((length k1 =? length k2)%nat && bytes_leb k1 k2).

Definition pair_key_le (p1 p2 : list Z * json) : Prop := key_leb p1.1 p2.1 = true.

#[global] Instance pair_key_le_dec : RelDecision pair_key_le.
Proof. intros p1 p2. unfold pair_key_le. apply _. Defined.

(** [uniqueifyJsonbObject]: of pairs with equal keys the last one written
    stays; the pairs are ordered by key. *)
Definition uniqueify (pairs : list (list Z * json)) : list (list Z * json) :=
  let fix keep_last (ps : list (list Z * json)) :=
    match ps with
    | [] => []
    | p :: ps' =>
        if existsb (fun q => bool_decide (q.1 = p.1)) ps' then keep_last ps'
        else p :: keep_last ps'
    end in
  merge_sort pair_key_le (keep_last pairs).

(** The recursive descent of [parse_value] as a stack machine over the
    tokens: the containers open around the current position. *)
Inductive astate := AOpen | AComma | AValue.
Inductive ostate := OOpen | OComma | OKey (k : list Z) | OColon (k : list Z) | OValue.
Inductive frame :=
  | FArray (items : list json) (st : astate)
  | FObject (pairs : list (list Z * json)) (st : ostate).

(** A complete value where the grammar expects one. *)
Definition push_value (v : json) (stk : list frame) (top : option json)
    : option (list frame * option json) :=
  match stk with
  | [] => match top with None => Some ([], Some v) | Some _ => None end
  | FArray items AOpen :: rest | FArray items AComma :: rest =>
      Some (FArray (v :: items) AValue :: rest, top)
  | FObject pairs (OColon k) :: rest => Some (FObject ((k, v) :: pairs) OValue :: rest, top)
  | _ => None
  end.

Definition expects_value (stk : list frame) (top : option json) : bool :=
  match stk with
  | [] => match top with None => true | Some _ => false end
  | FArray _ AOpen :: _ | FArray _ AComma :: _ | FObject _ (OColon _) :: _ => true
  | _ => false
  end.

Definition parse_step (st : list frame * option json) (t : token)
    : option (list frame * option json) :=
  let '(stk, top) := st in
  match t with
  | TLBracket => if expects_value stk top then Some (FArray [] AOpen :: stk, top) else None
  | TLBrace => if expects_value stk top then Some (FObject [] OOpen :: stk, top) else None
  | TRBracket =>
      match stk with
      | FArray items AOpen :: rest | FArray items AValue :: rest =>
          push_value (JArray (rev items)) rest top
      | _ => None
      end
  | TRBrace =>
      match stk with
      | FObject pairs OOpen :: rest | FObject pairs OValue :: rest =>
          push_value (JObject (uniqueify (rev pairs))) rest top
      | _ => None
      end
  | TComma =>
      match stk with
      | FArray items AValue :: rest => Some (FArray items AComma :: rest, top)
      | FObject pairs OValue :: rest => Some (FObject pairs OComma :: rest, top)
      | _ => None
      end
  | TColon =>
      match stk with
      | FObject pairs (OKey k) :: rest => Some (FObject pairs (OColon k) :: rest, top)
      | _ => None
      end
  | TString s =>
      match stk with
      | FObject pairs OOpen :: rest | FObject pairs OComma :: rest =>
          Some (FObject pairs (OKey s) :: rest, top)
      | _ => push_value (JString s) stk top
      end
  | TNumber n => push_value (JNumber n) stk top
  | TTrue => push_value (JBool true) stk top
  | TFalse => push_value (JBool false) stk top
  | TNull => push_value JNull stk top
  end.

Fixpoint parse_tokens_from (st : list frame * option json) (toks : list token)
    : option (list frame * option json) :=
  match toks with
  | [] => Some st
  | t :: ts => match parse_step st t with Some st' => parse_tokens_from st' ts | None => None end
  end.

(** One value, then the end of the input ([JSON_TOKEN_END]). *)
Definition parse_tokens (toks : list token) : option json :=
  match parse_tokens_from ([], None) toks with
  | Some ([], Some v) => Some v
  | _ => None
  end.

(** [jsonb_in]: the encoding check of the parameter, then the parse. *)
Definition jsonb_in (s : string) : option json :=
  let bs := bytes_of_string s in
  if utf8_valid bs then
    match lex_tokens (S (length bs)) bs with
    | Some toks => parse_tokens toks
    | None => None
    end
  else None.

Definition hex_lower (n : Z) : Z := if n <? 10 then 48 + n else 87 + n.

(** [escape_json]. *)
Definition escape_byte (b : Z) : list Z :=
  if b =? 8 then [92; 98]
  else if b =? 12 then [92; 102]
  else if b =? 10 then [92; 110]
  else if b =? 13 then [92; 114]
  else if b =? 9 then [92; 116]
  else if b =? 34 then [92; 34]
  else if b =? 92 then [92; 92]
  else if b <? 32 then [92; 117; 48; 48; hex_lower (b / 16); hex_lower (b mod 16)]
  else [b].

Definition escape_json (s : list Z) : list Z := [34] ++ flat_map escape_byte s ++ [34].

Fixpoint digits_fixed (n : nat) (x : Z) : list Z :=
  match n with
  | O => []
  | S n' => digits_fixed n' (x / 10) ++ [48 + x mod 10]
  end.

(** [numeric_out]: sign, integer part, and [dscale] fraction digits. *)
Definition numeric_out (n : numeric) : list Z :=
  let p := 10 ^ num_dscale n in
  (if num_neg n then [45] else [])
  ++ bytes_of_string (fmt_d (num_digits n / p))
  ++ (if 0 <? num_dscale n
      then 46 :: digits_fixed (Z.to_nat (num_dscale n)) (num_digits n mod p)
      else []).

(** [JsonbToCString] without indentation. *)
Fixpoint jsonb_out (v : json) : list Z :=
  match v with
  | JNull => bytes_of_string "null"
  | JBool true => bytes_of_string "true"
  | JBool false => bytes_of_string "false"
  | JNumber n => numeric_out n
  | JString s => escape_json s
  | JArray items =>
      let fix go (xs : list json) : list Z :=
        match xs with
        | [] => []
        | x :: xs' => jsonb_out x ++ match xs' with [] => [] | _ => [44; 32] ++ go xs' end
        end in
      [91] ++ go items ++ [93]
  | JObject pairs =>
      let fix go (ps : list (list Z * json)) : list Z :=
        match ps with
        | [] => []
        | (k, x) :: ps' =>
            escape_json k ++ [58; 32] ++ jsonb_out x
            ++ match ps' with [] => [] | _ => [44; 32] ++ go ps' end
        end in
      [123] ++ go pairs ++ [125]
  end.

(** The text a [jsonb] column holds for the input [s], as read back, or
    [None] when the server refuses [s]. *)
Definition jsonb_text (s : string) : option string :=
  (fun v => string_of_bytes (jsonb_out v)) <$> jsonb_in s.

(** JSON text for the concrete payloads below: a double quote, and a
    quoted string. *)
Definition dq : string := String "034"%char EmptyString.

Definition jstr (s : string) : string := dq +:+ s +:+ dq.

(** A completion body [{"tx":"t1"}], and the text the column reads back
    for it, [{"tx": "t1"}]. *)
Definition payloadTx : string := "{" +:+ jstr "tx" +:+ ":" +:+ jstr "t1" +:+ "}".

Definition payloadTx_stored : string := "{" +:+ jstr "tx" +:+ ": " +:+ jstr "t1" +:+ "}".

(* ================================================================== *)
(** ** internal/domain: requests, records, the request fingerprint *)

Inductive Status := StatusProcessing | StatusSucceeded | StatusFailed.

#[global] Instance Status_eq_dec : EqDecision Status.
Proof. solve_decision. Defined.

Module PaymentRequest.
Record t := mk {
  IdempotencyKey : string;
  MerchantID : string;
  CustomerID : string;
  Amount : Z;
  Currency : string
}.
End PaymentRequest.

(** The canonical text [fmt.Sprintf("%s|%s|%d|%s", ...)] of [Hash]. *)
Definition canonical (p : PaymentRequest.t) : string :=
  PaymentRequest.MerchantID p +:+ "|" +:+ PaymentRequest.CustomerID p +:+ "|"
  +:+ fmt_d (PaymentRequest.Amount p) +:+ "|" +:+ PaymentRequest.Currency p.

(** [PaymentRequest.Hash]: SHA-256 hex digest of the canonical text. *)
Definition Hash (p : PaymentRequest.t) : string :=
  hex_of_bytes (Sha256.Sum256 (bytes_of_string (canonical p))).

(** A stored row of [idempotency_keys] ([domain.IdempotencyRecord]). The
    surrogate [id BIGSERIAL] column is not read by any decision and is left
    out; [response_body] is the stored payload text, [None] for SQL NULL. *)
Module IdempotencyRecord.
Record t := mk {
  idempotency_key : string;
  merchant_id : string;
  customer_id : string;
  amount : Z;
  currency : string;
  status : Status;
  request_hash : string;
  response_body : option string;
  payment_id : string;
  attempt_count : Z;
  first_seen_at : Z;
  last_seen_at : Z;
  completed_at : option Z;
  expires_at : Z
}.
End IdempotencyRecord.

Import IdempotencyRecord.

(** [IdempotencyRecord.IsExpired]: [time.Now().After(r.ExpiresAt)]. *)
Definition IsExpired (r : IdempotencyRecord.t) (now : Z) : bool :=
  expires_at r <? now.

(** [domain.PaymentResponse]. *)
Module PaymentResponse.
Record t := mk {
  PaymentID : string;
  IdempotencyKey : string;
  Status : Status;
  Message : string;
  AttemptCount : Z;
  ResponseBody : option string
}.
End PaymentResponse.

(* ================================================================== *)
(** ** internal/storage: the PostgreSQL repository *)

(** The table [idempotency_keys], keyed by its UNIQUE [idempotency_key]. *)
Abbreviation DB := (gmap string IdempotencyRecord.t).

(** The row [INSERT INTO idempotency_keys ... VALUES (...)] creates: the
    column defaults give [attempt_count = 1] and NULL [response_body] and
    [completed_at]. *)
Definition new_row (req : PaymentRequest.t) (hash paymentID : string)
    (expiresAt now : Z) : IdempotencyRecord.t :=
  {| idempotency_key := PaymentRequest.IdempotencyKey req;
     merchant_id := PaymentRequest.MerchantID req;
     customer_id := PaymentRequest.CustomerID req;
     amount := PaymentRequest.Amount req;
     currency := PaymentRequest.Currency req;
     status := StatusProcessing;
     request_hash := hash;
     response_body := None;
     payment_id := paymentID;
     attempt_count := 1;
     first_seen_at := now;
     last_seen_at := now;
     completed_at := None;
     expires_at := expiresAt |}.

(** [ON CONFLICT (idempotency_key) DO UPDATE SET last_seen_at = now,
    attempt_count = idempotency_keys.attempt_count + 1]. *)
Definition on_conflict_update (r : IdempotencyRecord.t) (now : Z) : IdempotencyRecord.t :=
  {| idempotency_key := idempotency_key r;
     merchant_id := merchant_id r;
     customer_id := customer_id r;
     amount := amount r;
     currency := currency r;
     status := status r;
     request_hash := request_hash r;
     response_body := response_body r;
     payment_id := payment_id r;
     attempt_count := attempt_count r + 1;
     first_seen_at := first_seen_at r;
     last_seen_at := now;
     completed_at := completed_at r;
     expires_at := expires_at r |}.

(** [InsertOrGet]: under the advisory lock, the upsert [INSERT ... ON
    CONFLICT ... RETURNING ...]; [isNew] is [rec.AttemptCount == 1]. *)
Definition InsertOrGet (req : PaymentRequest.t) (paymentID : string)
    (expiresAt now : Z) (db : DB) : IdempotencyRecord.t * bool * DB :=
  let key := PaymentRequest.IdempotencyKey req in
  let hash := Hash req in
  let rec :=
    match db !! key with
    | None => new_row req hash paymentID expiresAt now
    | Some r => on_conflict_update r now
    end in
  let isNew := attempt_count rec =? 1 in
  (rec, isNew, <[key := rec]> db).

(** Errors of the repository and the services ([domain/errors.go]). *)
Inductive Error :=
  | ErrKeyNotFound
  | ErrAlreadyCompleted
  | ErrInvalidStatus
  | ErrParamsMismatch
  | ErrValidation (msg : string)
  | ErrDatabase (op : string).

(** The [response_body] parameter of [MarkComplete]: Go's
    conversion of the dereferenced body to [string], or NULL for a nil
    body. [Some stored] is the column's value after the server's [jsonb]
    input (NULL, or the text it reads back as); [None] when the server
    refuses the text. *)
Definition body_param (responseBody : option string) : option (option string) :=
  match responseBody with
  | None => Some None
  | Some b => Some <$> jsonb_text b
  end.

(** [MarkComplete]: [UPDATE ... SET status = $1, response_body = $2,
    completed_at = NOW() WHERE idempotency_key = $3 AND status =
    'processing']. A parameter the server refuses (the body as [jsonb], the
    key as UTF8 text) fails the statement whether or not a row matches:
    ["mark complete: %w"]. With no row changed, [ErrKeyNotFound] or
    [ErrAlreadyCompleted] after the existence query. The other statements
    of this file send their text parameters through the same check; there
    the model takes them as accepted. *)
Definition Repo_MarkComplete (key : string) (st : Status)
    (responseBody : option string) (now : Z) (db : DB) : option Error * DB :=
  match body_param responseBody with
  | None => (Some (ErrDatabase "mark complete"), db)
  | Some stored =>
  if negb (pg_text_ok key) then (Some (ErrDatabase "mark complete"), db) else
  match db !! key with
  | Some r =>
      if decide (status r = StatusProcessing) then
        (None, <[key := {| idempotency_key := idempotency_key r;
                           merchant_id := merchant_id r;
                           customer_id := customer_id r;
                           amount := amount r;
                           currency := currency r;
                           status := st;
                           request_hash := request_hash r;
                           response_body := stored;
                           payment_id := payment_id r;
                           attempt_count := attempt_count r;
                           first_seen_at := first_seen_at r;
                           last_seen_at := last_seen_at r;
                           completed_at := Some now;
                           expires_at := expires_at r |}]> db)
      else (Some ErrAlreadyCompleted, db)
  | None => (Some ErrKeyNotFound, db)
  end
  end.

(** [ResetToProcessing]: [UPDATE ... SET status = 'processing', payment_id =
    $1, completed_at = NULL, expires_at = $2, last_seen_at = NOW() WHERE
    idempotency_key = $3 AND status = 'failed']. The statement reports no
    error when no row matches. *)
Definition ResetToProcessing (key newPaymentID : string) (expiresAt now : Z)
    (db : DB) : DB :=
  match db !! key with
  | Some r =>
      if decide (status r = StatusFailed) then
        <[key := {| idempotency_key := idempotency_key r;
                    merchant_id := merchant_id r;
                    customer_id := customer_id r;
                    amount := amount r;
                    currency := currency r;
                    status := StatusProcessing;
                    request_hash := request_hash r;
                    response_body := response_body r;
                    payment_id := newPaymentID;
                    attempt_count := attempt_count r;
                    first_seen_at := first_seen_at r;
                    last_seen_at := now;
                    completed_at := None;
                    expires_at := expiresAt |}]> db
      else db
  | None => db
  end.

(* ================================================================== *)
(** ** internal/service: the idempotency decision *)

(** [validateRequest]. *)
Definition validateRequest (req : PaymentRequest.t) : option string :=
  if String.eqb (PaymentRequest.IdempotencyKey req) "" then Some "idempotency_key is required"
  else if String.eqb (PaymentRequest.MerchantID req) "" then Some "merchant_id is required"
  else if String.eqb (PaymentRequest.CustomerID req) "" then Some "customer_id is required"
  else if PaymentRequest.Amount req <? 0 then Some "amount must be non-negative"
  else if String.eqb (PaymentRequest.Currency req) "" then Some "currency is required"
  else None.

(** [generatePaymentID]: [fmt.Sprintf("pay_%d", time.Now().UnixNano())]. *)
Definition generatePaymentID (now : Z) : string := "pay_" +:+ fmt_d now.

(** The [(resp, code, err)] triple returned by [ProcessPayment]. *)
Inductive ProcessResult :=
  | Ok (resp : PaymentResponse.t) (code : Z)
  | Err (code : Z) (e : Error).

Definition msg_new := "payment accepted for processing".
Definition msg_expired := "expired key reused, payment accepted for processing".
Definition msg_in_progress := "payment is already being processed".
Definition msg_succeeded := "payment already succeeded".
Definition msg_retry := "previous attempt failed, retrying".

(** [IdempotencyService.ProcessPayment] with retention [expiryTTL]. The
    clock readings of one call ([generatePaymentID], [expiresAt], the row's
    [now] and [IsExpired]) are taken as one instant [now]. Store failures
    (HTTP 500) are not modelled: every repository call succeeds. *)
Definition ProcessPayment (expiryTTL now : Z) (req : PaymentRequest.t) (db : DB)
    : ProcessResult * DB :=
  match validateRequest req with
  | Some m => (Err 422 (ErrValidation m), db)
  | None =>
    let paymentID := generatePaymentID now in
    let expiresAt := now + expiryTTL in
    let '(rec, isNew, db1) := InsertOrGet req paymentID expiresAt now db in
    if isNew then
      (Ok (PaymentResponse.mk (payment_id rec) (idempotency_key rec)
             StatusProcessing msg_new 1 None) 201, db1)
    else if IsExpired rec now then
      let db2 := ResetToProcessing (idempotency_key rec) paymentID expiresAt now db1 in
      (Ok (PaymentResponse.mk paymentID (idempotency_key rec)
             StatusProcessing msg_expired (attempt_count rec) None) 201, db2)
    else
      let requestHash := Hash req in
      match status rec with
      | StatusProcessing =>
          if negb (String.eqb (request_hash rec) requestHash) then
            (Err 422 ErrParamsMismatch, db1)
          else
            (Ok (PaymentResponse.mk (payment_id rec) (idempotency_key rec)
                   StatusProcessing msg_in_progress (attempt_count rec) None) 409, db1)
      | StatusSucceeded =>
          (Ok (PaymentResponse.mk (payment_id rec) (idempotency_key rec)
                 StatusSucceeded msg_succeeded (attempt_count rec) (response_body rec)) 200, db1)
      | StatusFailed =>
          if negb (String.eqb (request_hash rec) requestHash) then
            (Err 422 ErrParamsMismatch, db1)
          else
            let db2 := ResetToProcessing (idempotency_key rec) paymentID expiresAt now db1 in
            (Ok (PaymentResponse.mk paymentID (idempotency_key rec)
                   StatusProcessing msg_retry (attempt_count rec) None) 201, db2)
      end
  end.

(** [IdempotencyService.MarkComplete]: only [succeeded] and [failed] are
    accepted targets. *)
Definition MarkComplete (key : string) (st : Status) (body : option string)
    (now : Z) (db : DB) : option Error * DB :=
  if decide (st = StatusProcessing) then (Some ErrInvalidStatus, db)
  else Repo_MarkComplete key st body now db.

(** The outcome names of the spec, read off the service's result. *)
Inductive Outcome :=
  | AcceptedNew | AcceptedRetry | AcceptedExpiredReused
  | RejectedInProgress | RejectedMismatch | Replay
  | InvalidRequest | Unavailable.

Definition outcome_of (r : ProcessResult) : Outcome :=
  match r with
  | Ok resp 201 =>
      if String.eqb (PaymentResponse.Message resp) msg_new then AcceptedNew
      else if String.eqb (PaymentResponse.Message resp) msg_expired then AcceptedExpiredReused
      else if String.eqb (PaymentResponse.Message resp) msg_retry then AcceptedRetry
      else Unavailable
  | Ok _ 409 => RejectedInProgress
  | Ok _ 200 => Replay
  | Err 422 ErrParamsMismatch => RejectedMismatch
  | Err 422 (ErrValidation _) => InvalidRequest
  | _ => Unavailable
  end.

(** [N] calls of [ProcessPayment] on one request, in the order in which
    they take the key's advisory lock; the [i]-th call reads the clock at
    the [i]-th entry of [nows]. *)
Fixpoint ProcessAll (expiryTTL : Z) (req : PaymentRequest.t) (nows : list Z)
    (db : DB) : list ProcessResult * DB :=
  match nows with
  | [] => ([], db)
  | now :: rest =>
      let '(r, db1) := ProcessPayment expiryTTL now req db in
      let '(rs, db2) := ProcessAll expiryTTL req rest db1 in
      (r :: rs, db2)
  end.

(** *** Scenarios of the specification, evaluated *)

Definition reqA := PaymentRequest.mk "A" "m1" "c1" 5000 "BRL".
Definition reqA' := PaymentRequest.mk "A" "m1" "c1" 9999 "BRL".

Definition scenario1 : list Outcome * option Error :=
  let '(r1, db1) := ProcessPayment 100 10 reqA ∅ in
  let '(r2, db2) := ProcessPayment 100 11 reqA db1 in
  let '(e, db3) := MarkComplete "A" StatusSucceeded (Some payloadTx) 12 db2 in
  let '(r3, db4) := ProcessPayment 100 13 reqA db3 in
  let '(r4, _) := ProcessPayment 100 14 reqA' db4 in
  ([outcome_of r1; outcome_of r2; outcome_of r3; outcome_of r4], e).


(* ================================================================== *)
(** ** cmd/server and internal/monitor: the in-memory metrics *)

Module Metrics.
Record t := mk {
  TotalRequests : Z;
  NewPayments : Z;
  DuplicateBlocked : Z;
  RetryAllowed : Z;
  CachedResponses : Z;
  ParamMismatches : Z;
  window : list (Z * bool)    (* [windowEntry]: (ts, isDuplicate) *)
}.
End Metrics.

Definition NewMetrics : Metrics.t := Metrics.mk 0 0 0 0 0 0 [].

(** [5 * time.Minute] in nanoseconds. *)
Definition windowDuration : Z := 300000000000.

(** [pruneWindow]: drop the leading entries older than [now - 5min]. *)
Fixpoint pruneWindow_from (cutoff : Z) (w : list (Z * bool)) : list (Z * bool) :=
  match w with
  | [] => []
  | e :: rest => if e.1 <? cutoff then pruneWindow_from cutoff rest else w
  end.

Definition pruneWindow (now : Z) (w : list (Z * bool)) : list (Z * bool) :=
  pruneWindow_from (now - windowDuration) w.

Definition addWindow (isDuplicate : bool) (now : Z) (w : list (Z * bool)) :=
  pruneWindow now (w ++ [(now, isDuplicate)]).

Definition RecordNew (now : Z) (m : Metrics.t) : Metrics.t :=
  Metrics.mk (Metrics.TotalRequests m + 1) (Metrics.NewPayments m + 1)
    (Metrics.DuplicateBlocked m) (Metrics.RetryAllowed m) (Metrics.CachedResponses m)
    (Metrics.ParamMismatches m) (addWindow false now (Metrics.window m)).

Definition RecordDuplicate (now : Z) (m : Metrics.t) : Metrics.t :=
  Metrics.mk (Metrics.TotalRequests m + 1) (Metrics.NewPayments m)
    (Metrics.DuplicateBlocked m + 1) (Metrics.RetryAllowed m) (Metrics.CachedResponses m)
    (Metrics.ParamMismatches m) (addWindow true now (Metrics.window m)).

Definition RecordRetry (now : Z) (m : Metrics.t) : Metrics.t :=
  Metrics.mk (Metrics.TotalRequests m + 1) (Metrics.NewPayments m)
    (Metrics.DuplicateBlocked m) (Metrics.RetryAllowed m + 1) (Metrics.CachedResponses m)
    (Metrics.ParamMismatches m) (addWindow false now (Metrics.window m)).

Definition RecordCached (now : Z) (m : Metrics.t) : Metrics.t :=
  Metrics.mk (Metrics.TotalRequests m + 1) (Metrics.NewPayments m)
    (Metrics.DuplicateBlocked m) (Metrics.RetryAllowed m) (Metrics.CachedResponses m + 1)
    (Metrics.ParamMismatches m) (addWindow true now (Metrics.window m)).

Definition RecordMismatch (now : Z) (m : Metrics.t) : Metrics.t :=
  Metrics.mk (Metrics.TotalRequests m + 1) (Metrics.NewPayments m)
    (Metrics.DuplicateBlocked m) (Metrics.RetryAllowed m) (Metrics.CachedResponses m)
    (Metrics.ParamMismatches m + 1) (addWindow true now (Metrics.window m)).

Module MetricsSnapshot.
Record t := mk {
  TotalRequests : Z;
  NewPayments : Z;
  DuplicateBlocked : Z;
  RetryAllowed : Z;
  CachedResponses : Z;
  ParamMismatches : Z;
  WindowRequests : Z;
  WindowDuplicates : Z;
  WindowDupRate : Q;
  AnomalyDetected : bool;
  AnomalyThreshold : Q
}.
End MetricsSnapshot.

(** [Metrics.Snapshot]: entries strictly after [now - 5min] are counted;
    the float64 rate is computed exactly, as a rational. *)
Definition Snapshot (now : Z) (m : Metrics.t) : MetricsSnapshot.t :=
  let cutoff := now - windowDuration in
  let live := filter (fun e : Z * bool => (cutoff <? e.1) = true) (Metrics.window m) in
  let windowReqs := Z.of_nat (length live) in
  let windowDups := Z.of_nat (length (filter (fun e : Z * bool => e.2 = true) live)) in
  let dupRate : Q :=
    if 0 <? windowReqs then (inject_Z windowDups / inject_Z windowReqs * 100)%Q else 0%Q in
  MetricsSnapshot.mk (Metrics.TotalRequests m) (Metrics.NewPayments m)
    (Metrics.DuplicateBlocked m) (Metrics.RetryAllowed m) (Metrics.CachedResponses m)
    (Metrics.ParamMismatches m) windowReqs windowDups dupRate
    (negb (Qle_bool dupRate 20)) 20%Q.

(** [withMetrics]: the counter is chosen by the HTTP status written. *)
Definition withMetrics (status now : Z) (m : Metrics.t) : Metrics.t :=
  if status =? 201 then RecordNew now m
  else if status =? 200 then RecordCached now m
  else if status =? 409 then RecordDuplicate now m
  else if status =? 422 then RecordMismatch now m
  else m.

(** The HTTP status [PaymentHandler.ProcessPayment] writes for a decoded
    request: the service's code, with or without an error body. *)
Definition status_of (r : ProcessResult) : Z :=
  match r with
  | Ok _ code => code
  | Err code _ => code
  end.

(** [POST /v1/payments] through [withMetrics]. *)
Definition ServePayment (expiryTTL now : Z) (req : PaymentRequest.t) (db : DB)
    (m : Metrics.t) : ProcessResult * DB * Metrics.t :=
  let '(r, db') := ProcessPayment expiryTTL now req db in
  (r, db', withMetrics (status_of r) now m).

(* ================================================================== *)
(** ** internal/service: the duplicate report *)

(** Go [int64] arithmetic: the two's complement wrap-around. *)
Definition wrap64 (z : Z) : Z := (z + 2 ^ 63) mod 2 ^ 64 - 2 ^ 63.

Fixpoint sumZ (l : list Z) : Z :=
  match l with
  | [] => 0
  | z :: l' => z + sumZ l'
  end.

(** The rows of the table. *)
Definition rows (db : DB) : list IdempotencyRecord.t := (map_to_list db).*2.

(** [merchant_id = $1 AND first_seen_at >= $2 AND first_seen_at <= $3]. *)
Definition in_range (merchantID : string) (from to : Z) (r : IdempotencyRecord.t) : bool :=
  String.eqb (merchant_id r) merchantID && (from <=? first_seen_at r) && (first_seen_at r <=? to).

(** The [ORDER BY attempt_count DESC] order. *)
Definition attempts_desc (r1 r2 : IdempotencyRecord.t) : Prop :=
  attempt_count r2 <= attempt_count r1.

#[global] Instance attempts_desc_dec : RelDecision attempts_desc.
Proof. intros r1 r2. unfold attempts_desc. apply _. Defined.

#[global] Instance attempts_desc_total : Total attempts_desc.
Proof. intros r1 r2. unfold attempts_desc. lia. Qed.

(** [GetDuplicates]: in-range rows with [attempt_count > 1], [ORDER BY
    attempt_count DESC]. *)
Definition GetDuplicates (merchantID : string) (from to : Z) (db : DB)
    : list IdempotencyRecord.t :=
  merge_sort attempts_desc
    (filter (fun r => (in_range merchantID from to r && (1 <? attempt_count r)) = true) (rows db)).

(** [GetMerchantStats]: the sum of [attempt_count] and the row count. *)
Definition GetMerchantStats (merchantID : string) (from to : Z) (db : DB) : Z * Z :=
  let rs := filter (fun r => in_range merchantID from to r = true) (rows db) in
  (sumZ (attempt_count <$> rs), Z.of_nat (length rs)).

Module SuspiciousKey.
Record t := mk {
  IdempotencyKey : string;
  AttemptCount : Z;
  Amount : Z;
  Currency : string;
  Status : Status;
  FirstSeenAt : Z;
  LastSeenAt : Z
}.
End SuspiciousKey.

(** Go's conversion [float64(n)] of an integer: the nearest IEEE double,
    ties to even. Arithmetic on the results is Rocq's primitive binary64
    ([PrimFloat]), with the same rounding as Go's [float64] operations. *)
Definition float64 (z : Z) : float :=
  SF2Prim (SpecFloat.binary_normalize prec emax z 0 false).

Module DuplicateReport.
Record t := mk {
  MerchantID : string;
  TotalRequests : Z;
  UniquePayments : Z;
  DuplicateCount : Z;
  DuplicateRate : float;
  SuspiciousKeys : list SuspiciousKey.t;
  TimeRange : Z * Z;
  AmountAtRisk : Z;
  CurrencyBreakdown : gmap string Z
}.
End DuplicateReport.

Definition suspiciousThreshold : Z := 3.

Definition to_suspicious (d : IdempotencyRecord.t) : SuspiciousKey.t :=
  SuspiciousKey.mk (idempotency_key d) (attempt_count d) (amount d) (currency d)
    (status d) (first_seen_at d) (last_seen_at d).

(** One iteration of the loop over [duplicates]. *)
Definition report_step (acc : list SuspiciousKey.t * Z * gmap string Z)
    (d : IdempotencyRecord.t) : list SuspiciousKey.t * Z * gmap string Z :=
  let '(suspicious, amountAtRisk, currencyBreakdown) := acc in
  let suspicious' :=
    if suspiciousThreshold <? attempt_count d then suspicious ++ [to_suspicious d]
    else suspicious in
  let extraAttempts := attempt_count d - 1 in
  let atRisk := wrap64 (amount d * extraAttempts) in
  (suspicious', wrap64 (amountAtRisk + atRisk),
   <[currency d := wrap64 (default 0 (currencyBreakdown !! currency d) + atRisk)]>
     currencyBreakdown).

(** [ReportingService.GetDuplicateReport]. *)
Definition GetDuplicateReport (merchantID : string) (from to : Z) (db : DB)
    : DuplicateReport.t :=
  let duplicates := GetDuplicates merchantID from to db in
  let '(totalRequests, uniquePayments) := GetMerchantStats merchantID from to db in
  let duplicateCount := totalRequests - uniquePayments in
  let duplicateRate : float :=
    if 0 <? totalRequests
    then (float64 duplicateCount / float64 totalRequests * float64 100)%float
    else float64 0 in
  let '(suspicious, amountAtRisk, currencyBreakdown) :=
    fold_left report_step duplicates ([], 0, ∅) in
  DuplicateReport.mk merchantID totalRequests uniquePayments duplicateCount
    duplicateRate suspicious (from, to) amountAtRisk currencyBreakdown.

(* ================================================================== *)
(** ** internal/storage: the other repository operations *)

(** [DeleteExpired]: [DELETE FROM idempotency_keys WHERE expires_at < NOW()];
    the count is [RowsAffected], the number of rows deleted. *)
Definition DeleteExpired (now : Z) (db : DB) : Z * DB :=
  (Z.of_nat (size (filter (fun kr : string * IdempotencyRecord.t => expires_at kr.2 < now) db)),
   filter (fun kr : string * IdempotencyRecord.t => ¬ (expires_at kr.2 < now)) db).

(** [advisoryLockKey]: FNV-1a 64 of the key's bytes ([hash/fnv]: xor the
    byte in, then multiply by the prime, modulo [2^64]), cast to [int64]. *)
Definition fnv_offset64 : Z := 14695981039346656037.
Definition fnv_prime64 : Z := 1099511628211.

Definition fnv1a64 (bs : list Z) : Z :=
  fold_left (fun h b => (Z.lxor h b * fnv_prime64) mod 2 ^ 64) bs fnv_offset64.

Definition advisoryLockKey (idempotencyKey : string) : Z :=
  wrap64 (fnv1a64 (bytes_of_string idempotencyKey)).

(* ================================================================== *)
(** ** internal/config *)

(** The process environment; [os.Getenv] reads an unset variable as "". *)
Abbreviation Env := (gmap string string).

Definition Getenv (env : Env) (key : string) : string := default "" (env !! key).

Definition envOrDefault (env : Env) (key fallback : string) : string :=
  let v := Getenv env key in
  if String.eqb v "" then fallback else v.

(** The digits loop of [strconv.Atoi]: [ch -= '0'] on a byte, a syntax
    error when the result exceeds 9. *)
Fixpoint atoi_digits (n : Z) (s : string) : option Z :=
  match s with
  | EmptyString => Some n
  | String c s' =>
      let ch := (Z.of_nat (nat_of_ascii c) - 48) mod 256 in
      if 9 <? ch then None else atoi_digits (n * 10 + ch) s'
  end.

(** [strconv.Atoi] on a 64-bit platform: an optional sign, at least one
    decimal digit and nothing else, and a value within [int64]; otherwise an
    error (syntax or range), here [None]. *)
Definition Atoi (s : string) : option Z :=
  let '(neg, digits) :=
    match s with
    | String "-" s' => (true, s')
    | String "+" s' => (false, s')
    | _ => (false, s)
    end in
  if String.eqb digits "" then None
  else match atoi_digits 0 digits with
       | Some n =>
           let v := if neg then - n else n in
           if (- 2 ^ 63 <=? v) && (v <? 2 ^ 63) then Some v else None
       | None => None
       end.

(** [time.Hour] in nanoseconds. *)
Definition Hour : Z := 3600000000000.

(** [parseDurationHours]: 24 when [Atoi] fails; [time.Duration(h) *
    time.Hour] is an [int64] product. *)
Definition parseDurationHours (s : string) : Z :=
  let h := match Atoi s with Some h => h | None => 24 end in
  wrap64 (h * Hour).

Module Config.
Record t := mk {
  Port : string;
  DatabaseDSN : string;
  KeyExpiryTTL : Z
}.
End Config.

Definition Load (env : Env) : Config.t :=
  Config.mk (envOrDefault env "PORT" "8080")
    (envOrDefault env "DATABASE_DSN" "postgres://postgres@localhost:5432/idempotency?sslmode=disable")
    (parseDurationHours (envOrDefault env "KEY_EXPIRY_HOURS" "24")).

(* ================================================================== *)
(** ** internal/handler: paths, payments and completion *)

(** [strings.Trim(s, "/")]. *)
Fixpoint trim_left_slash (s : string) : string :=
  match s with
  | String "/" s' => trim_left_slash s'
  | _ => s
  end.

Fixpoint trim_right_slash (s : string) : string :=
  match s with
  | EmptyString => EmptyString
  | String c s' =>
      let r := trim_right_slash s' in
      if Ascii.eqb c "/" && String.eqb r "" then EmptyString else String c r
  end.

Definition trim_slash (s : string) : string := trim_right_slash (trim_left_slash s).

(** [strings.Split(s, "/")]: the empty string splits into [[""]]. *)
Fixpoint split_slash (s : string) : list string :=
  match s with
  | EmptyString => [EmptyString]
  | String c s' =>
      if Ascii.eqb c "/" then EmptyString :: split_slash s'
      else match split_slash s' with
           | w :: ws => String c w :: ws
           | [] => [String c EmptyString]
           end
  end.

(** [parts := strings.Split(strings.Trim(r.URL.Path, "/"), "/")]. *)
Definition path_parts (path : string) : list string := split_slash (trim_slash path).

(** [err.Error()] of the errors of [domain/errors.go]; of a database error
    only its prefix: the server's message that follows is not modeled. *)
Definition error_text (e : Error) : string :=
  match e with
  | ErrKeyNotFound => "idempotency key not found"
  | ErrAlreadyCompleted => "payment already completed"
  | ErrInvalidStatus => "invalid status: must be 'succeeded' or 'failed'"
  | ErrParamsMismatch => "request parameters do not match original payment"
  | ErrValidation msg => msg
  | ErrDatabase op => op
  end.

(** [PaymentHandler.ProcessPayment]: the request body is given decoded,
    [None] when [json.Decode] fails. The status written, the service's
    result when it is called, and the store. *)
Definition HandleProcessPayment (expiryTTL now : Z) (method : string)
    (body : option PaymentRequest.t) (db : DB) : Z * option ProcessResult * DB :=
  if negb (String.eqb method "POST") then (405, None, db)
  else match body with
       | None => (400, None, db)
       | Some req =>
           let '(r, db') := ProcessPayment expiryTTL now req db in
           (status_of r, Some r, db')
       end.

(** The [/v1/payments] route: the handler wrapped in [withMetrics]. *)
Definition RoutePayments (expiryTTL now : Z) (method : string)
    (body : option PaymentRequest.t) (db : DB) (m : Metrics.t)
    : Z * option ProcessResult * DB * Metrics.t :=
  let '(status, r, db') := HandleProcessPayment expiryTTL now method body db in
  (status, r, db', withMetrics status now m).

(** [domain.CompleteRequest]: [Status] is any decoded string. *)
Module CompleteRequest.
Record t := mk {
  Status : string;
  ResponseBody : option string
}.
End CompleteRequest.

(** [IdempotencyService.MarkComplete] on a decoded body. *)
Definition Service_MarkComplete (key : string) (req : CompleteRequest.t) (now : Z)
    (db : DB) : option Error * DB :=
  if String.eqb (CompleteRequest.Status req) "succeeded" then
    Repo_MarkComplete key StatusSucceeded (CompleteRequest.ResponseBody req) now db
  else if String.eqb (CompleteRequest.Status req) "failed" then
    Repo_MarkComplete key StatusFailed (CompleteRequest.ResponseBody req) now db
  else (Some ErrInvalidStatus, db).

(** [PaymentHandler.CompletePayment]: the status and the JSON object
    written, and the store. *)
Definition CompletePayment (method path : string) (body : option CompleteRequest.t)
    (now : Z) (db : DB) : Z * list (string * string) * DB :=
  if negb (String.eqb method "PATCH") then (405, [("error", "method not allowed")], db)
  else
    let parts := path_parts path in
    if (length parts <? 4)%nat then (400, [("error", "missing idempotency key")], db)
    else
      let key := nth 2 parts EmptyString in
      match body with
      | None => (400, [("error", "invalid JSON body")], db)
      | Some req =>
          let '(err, db') := Service_MarkComplete key req now db in
          match err with
          | Some ErrInvalidStatus => (422, [("error", error_text ErrInvalidStatus)], db')
          | Some ErrKeyNotFound => (404, [("error", error_text ErrKeyNotFound)], db')
          | Some ErrAlreadyCompleted => (409, [("error", error_text ErrAlreadyCompleted)], db')
          | Some e => (500, [("error", error_text e)], db')
          | None => (200, [("status", "completed"); ("idempotency_key", key)], db')
          end
      end.

(* ================================================================== *)
(** ** Merchant policies: the repository and [PolicyHandler] *)

Module MerchantPolicy.
Record t := mk {
  MerchantID : string;
  RetryPolicy : string;
  ExpiryHours : Z;
  CreatedAt : Z;
  UpdatedAt : Z
}.
End MerchantPolicy.

(** The table [merchant_policies], keyed by its primary key [merchant_id]. *)
Abbreviation PolicyDB := (gmap string MerchantPolicy.t).

(** [GetPolicy]; [None] is [ErrMerchantNotFound]. *)
Definition GetPolicy (merchantID : string) (pdb : PolicyDB) : option MerchantPolicy.t :=
  pdb !! merchantID.

(** [UpsertPolicy]: [INSERT ... VALUES ($1, $2, $3, NOW(), NOW()) ON
    CONFLICT (merchant_id) DO UPDATE SET retry_policy = $2, expiry_hours =
    $3, updated_at = NOW()]. *)
Definition UpsertPolicy (policy : MerchantPolicy.t) (now : Z) (pdb : PolicyDB) : PolicyDB :=
  let key := MerchantPolicy.MerchantID policy in
  let created :=
    match pdb !! key with
    | Some old => MerchantPolicy.CreatedAt old
    | None => now
    end in
  <[key := MerchantPolicy.mk key (MerchantPolicy.RetryPolicy policy)
             (MerchantPolicy.ExpiryHours policy) created now]> pdb.

(** [validPolicies] and [validHours] of [UpdatePolicy]. *)
Definition validPolicy (s : string) : bool :=
  String.eqb s "strict_no_retry" || String.eqb s "standard" || String.eqb s "lenient".

Definition validHours (h : Z) : bool := (h =? 24) || (h =? 48) || (h =? 72).

(** What [UpdatePolicy] writes: a JSON object of strings or a policy. *)
Inductive PolicyReply :=
  | ReplyMap (kv : list (string * string))
  | ReplyPolicy (p : MerchantPolicy.t).

(** [PolicyHandler.UpdatePolicy]; the body is given decoded, [None] when
    [json.Decode] fails. *)
Definition UpdatePolicy (method path : string) (body : option MerchantPolicy.t)
    (now : Z) (pdb : PolicyDB) : Z * PolicyReply * PolicyDB :=
  if negb (String.eqb method "PUT") && negb (String.eqb method "GET") then
    (405, ReplyMap [("error", "method not allowed")], pdb)
  else
    let parts := path_parts path in
    if (length parts <? 4)%nat then (400, ReplyMap [("error", "missing merchant_id")], pdb)
    else
      let merchantID := nth 2 parts EmptyString in
      if String.eqb method "GET" then
        match GetPolicy merchantID pdb with
        | None => (404, ReplyMap [("error", "merchant policy not found")], pdb)
        | Some p => (200, ReplyPolicy p, pdb)
        end
      else
        match body with
        | None => (400, ReplyMap [("error", "invalid JSON body")], pdb)
        | Some p =>
            let policy := MerchantPolicy.mk merchantID (MerchantPolicy.RetryPolicy p)
                            (MerchantPolicy.ExpiryHours p) (MerchantPolicy.CreatedAt p)
                            (MerchantPolicy.UpdatedAt p) in
            if negb (validPolicy (MerchantPolicy.RetryPolicy policy)) then
              (422, ReplyMap [("error", "retry_policy must be strict_no_retry, standard, or lenient")], pdb)
            else if negb (validHours (MerchantPolicy.ExpiryHours policy)) then
              (422, ReplyMap [("error", "expiry_hours must be 24, 48, or 72")], pdb)
            else
              (200, ReplyMap [("status", "updated"); ("merchant_id", merchantID)],
               UpsertPolicy policy now pdb)
        end.

(* ================================================================== *)
(** ** internal/monitor: the anomaly detector *)

(** [AnomalyDetector.IsAnomalous]: [WindowDupRate > threshold]. *)
Definition IsAnomalous (threshold : Q) (now : Z) (m : Metrics.t) : bool :=
  negb (Qle_bool (MetricsSnapshot.WindowDupRate (Snapshot now m)) threshold).

(* ================================================================== *)
(** * Observations used in the statements *)


(** The stored payload of key [k]: [None] when there is no row or the
    column is NULL. *)
Definition payload_of (db : DB) (k : string) : option string :=
  db !! k ≫= response_body.

(** A text without the separator ['|'] of the canonical text. *)
Fixpoint no_pipe (s : string) : bool :=
  match s with
  | EmptyString => true
  | String c s' => negb (Ascii.eqb c "|") && no_pipe s'
  end.

(** The in-range duplicate rows, in table order. *)
Definition in_range_dups (merchantID : string) (from to : Z) (db : DB)
    : list IdempotencyRecord.t :=
  filter (fun r => (in_range merchantID from to r && (1 <? attempt_count r)) = true) (rows db).

(** One row's amount at risk, [amount * (attempt_count - 1)]. *)
Definition at_risk (r : IdempotencyRecord.t) : Z := amount r * (attempt_count r - 1).

(** A currency's entry of the breakdown, 0 when absent (Go's zero value). *)
Definition bd_get (b : gmap string Z) (c : string) : Z := default 0 (b !! c).

(** The in-range rows with more than [suspiciousThreshold] attempts. *)
Definition suspicious_rows (merchantID : string) (from to : Z) (db : DB)
    : list IdempotencyRecord.t :=
  filter (fun r => in_range merchantID from to r = true ∧ suspiciousThreshold < attempt_count r)
    (rows db).

(** The invariant of the table the service keeps: each row is stored under
    its own [idempotency_key] and has been seen at least once. *)
Definition store_inv (db : DB) : Prop :=
  ∀ k r, db !! k = Some r → idempotency_key r = k ∧ 1 <= attempt_count r.

(** A text without the path separator ['/']. *)
Fixpoint no_slash (s : string) : bool :=
  match s with
  | EmptyString => true
  | String c s' => negb (Ascii.eqb c "/") && no_slash s'
  end.

(** The request path [/v1/payments/{key}/complete]. *)
Definition complete_path (key : string) : string :=
  "/v1/payments/" +:+ key +:+ "/complete".

(** The request path [/v1/merchants/{id}/policy]. *)
Definition policy_path (merchantID : string) : string :=
  "/v1/merchants/" +:+ merchantID +:+ "/policy".

(** The status [PaymentHandler.CompletePayment] answers with, read off the
    request and the store before the call: 500 when the server refuses the
    body as [jsonb] or the key as text. *)
Definition complete_code (key : string) (req : CompleteRequest.t) (db : DB) : Z :=
  if String.eqb (CompleteRequest.Status req) "succeeded"
     || String.eqb (CompleteRequest.Status req) "failed" then
    match body_param (CompleteRequest.ResponseBody req) with
    | None => 500
    | Some _ =>
        if pg_text_ok key then
          match db !! key with
          | None => 404
          | Some r => if decide (status r = StatusProcessing) then 200 else 409
          end
        else 500
    end
  else 422.

(** The status [Service_MarkComplete] writes for an accepted target. *)
Definition target_status (req : CompleteRequest.t) : Status :=
  if String.eqb (CompleteRequest.Status req) "succeeded" then StatusSucceeded else StatusFailed.

(** The [CHECK] constraints of [merchant_policies], and each policy stored
    under its own [merchant_id]. *)
Definition policies_valid (pdb : PolicyDB) : Prop :=
  ∀ k p, pdb !! k = Some p →
    MerchantPolicy.MerchantID p = k ∧ validPolicy (MerchantPolicy.RetryPolicy p) = true
    ∧ validHours (MerchantPolicy.ExpiryHours p) = true.

(** The five counters of the outcomes add up to [TotalRequests]. *)
Definition counters_consistent (m : Metrics.t) : Prop :=
  Metrics.TotalRequests m = Metrics.NewPayments m + Metrics.DuplicateBlocked m
    + Metrics.RetryAllowed m + Metrics.CachedResponses m + Metrics.ParamMismatches m.

(** *** Concrete states *)

(** The row a first call on [reqA] at time 10 creates, with retention 100. *)
Definition rowA : IdempotencyRecord.t := new_row reqA (Hash reqA) "pay_10" 110 10.

Definition dbA : DB := {[ "A" := rowA ]}.



(** A request without merchant. *)
Definition reqNoMerchant := PaymentRequest.mk "B" "" "c1" 100 "USD".

(** A request on key "B" with the fields of [reqA]. *)
Definition reqB := PaymentRequest.mk "B" "m1" "c1" 5000 "BRL".

(** Merchant m1's key "A" called four times and key "B" twice; merchant
    m2's key "C" once. *)
Definition dbReport : DB :=
  let db1 := (ProcessAll 100 reqA [10; 11; 12; 13] ∅).2 in
  let db2 := (ProcessAll 100 (PaymentRequest.mk "B" "m1" "c2" 700 "USD") [20; 21] db1).2 in
  (ProcessAll 100 (PaymentRequest.mk "C" "m2" "c3" 900 "USD") [30] db2).2.

(** A key of amount [2^62] called three times. *)
Definition reqBig := PaymentRequest.mk "K" "m1" "c1" (2 ^ 62) "USD".

Definition dbBig : DB := (ProcessAll 100 reqBig [10; 11; 12] ∅).2.

(** Merchant m1's key "A" called twelve times and eight other keys once
    each: 20 requests, 9 payments, 11 duplicates. *)
Definition dbRate : DB :=
  fold_left (fun db k => (ProcessAll 100 (PaymentRequest.mk k "m1" "c1" 100 "USD") [50] db).2)
    ["B"; "C"; "D"; "E"; "F"; "G"; "H"; "I"]
    (ProcessAll 100 reqA (seqZ 1 12) ∅).2.



(** A [succeeded] completion body. *)
Definition completeOk := CompleteRequest.mk "succeeded" (Some payloadTx).

(** A completion whose body is the JSON string of the code point U+0000,
    which Go's decoder accepts and [jsonb] refuses. *)
Definition completeNul := CompleteRequest.mk "succeeded" (Some (jstr "\u0000")).

(** A process environment whose [KEY_EXPIRY_HOURS] is not an integer. *)
Definition envBadHours : Env := {[ "KEY_EXPIRY_HOURS" := "36h"; "PORT" := "9090" ]}.

(** The seeded policy of merchant [kubo-brazil], created at 0. *)
Definition pdbSeed : PolicyDB :=
  {[ "kubo-brazil" := MerchantPolicy.mk "kubo-brazil" "standard" 24 0 0 ]}.

(** A [PUT] body: its [merchant_id] and timestamps are not the ones stored. *)
Definition policyBody := MerchantPolicy.mk "other" "lenient" 48 5 5.

(** Metrics after two requests at 10 and 400 seconds. *)
Definition metrics2 : Metrics.t :=
  RecordDuplicate 400000000000 (RecordNew 10000000000 NewMetrics).

(** Metrics after two requests at 10 and 200 seconds: both still in the
    window. *)
Definition metrics3 : Metrics.t :=
  RecordDuplicate 200000000000 (RecordNew 10000000000 NewMetrics).
(* ================================================================== *)
(** * Properties *)

(** ** Checks of the SHA-256 model against its test vectors *)

Example sha256_abc :
  hex_of_bytes (Sha256.Sum256 (bytes_of_string "abc")) =
  "ba7816bf8f01cfea414140de5dae2223b00361a396177a9cb410ff61f20015ad".
Proof. vm_compute. reflexivity. Qed.

Example sha256_empty :
  hex_of_bytes (Sha256.Sum256 (bytes_of_string "")) =
  "e3b0c44298fc1c149afbf4c8996fb92427ae41e4649b934ca495991b7852b855".
Proof. vm_compute. reflexivity. Qed.

Example sha256_two_blocks :
  hex_of_bytes (Sha256.Sum256 (bytes_of_string
    "abcdbcdecdefdefgefghfghighijhijkijkljklmklmnlmnomnopnopq")) =
  "248d6a61d20638b8e5c026930c3e6039a33ce45964ff2167f6ecedd419db06c1".
Proof. vm_compute. reflexivity. Qed.

(** ** The [jsonb] model: the lexer's bound, and the server's answers *)

Lemma skip_ws_length bs : (length (skip_ws bs) <= length bs)%nat.
Proof. induction bs as [|b r IH]; simpl; [lia|]. destruct (is_ws b); simpl; lia. Qed.

Lemma span_digits_app bs : (span_digits bs).1 ++ (span_digits bs).2 = bs.
Proof.
  induction bs as [|b r IH]; simpl; [done|].
  destruct (is_digit b); [|done]. destruct (span_digits r) as [d r']. simpl in *. by rewrite IH.
Qed.

Lemma span_alnum_app bs : (span_alnum bs).1 ++ (span_alnum bs).2 = bs.
Proof.
  induction bs as [|b r IH]; simpl; [done|].
  destruct (is_alnum b); [|done]. destruct (span_alnum r) as [d r']. simpl in *. by rewrite IH.
Qed.

Lemma span_digits_length bs : (length (span_digits bs).2 <= length bs)%nat.
Proof. rewrite <- (span_digits_app bs) at 2. rewrite length_app. lia. Qed.

Lemma lex_string_length hi acc bs s r :
  lex_string hi acc bs = Some (s, r) → (length r < length bs)%nat.
Proof.
  revert hi acc. induction bs as [bs IH] using (induction_ltof1 _ (@length Z)); unfold ltof in IH.
  intros hi acc H. destruct bs as [|b r0]; simpl in H; [discriminate|].
  repeat (case_match; simplify_eq/=); try lia;
    match goal with
    | H : lex_string _ _ ?x = Some _ |- _ => apply IH in H; simpl in *; lia
    end.
Qed.

Lemma lex_int_part_length bs ip r :
  lex_int_part bs = Some (ip, r) → (length r < length bs)%nat.
Proof.
  unfold lex_int_part. destruct bs as [|b r0]; [done|].
  pose proof (span_digits_length r0) as L.
  destruct (span_digits r0) as [d r'] eqn:E. simpl in L.
  repeat case_match; intros; simplify_eq/=; lia.
Qed.

Lemma lex_frac_part_length bs fp r :
  lex_frac_part bs = Some (fp, r) → (length r <= length bs)%nat.
Proof.
  unfold lex_frac_part. destruct bs as [|b r0]; [intros; simplify_eq/=; lia|].
  pose proof (span_digits_length r0) as L.
  destruct (span_digits r0) as [d r'] eqn:E. simpl in L.
  repeat case_match; intros; simplify_eq/=; lia.
Qed.

Lemma lex_exp_part_length bs e r :
  lex_exp_part bs = Some (e, r) → (length r <= length bs)%nat.
Proof.
  unfold lex_exp_part. destruct bs as [|b r0]; [intros; simplify_eq/=; lia|].
  destruct (_ || _); [|intros; simplify_eq/=; lia].
  assert (length (exp_sign r0).2 <= length r0)%nat as L1
    by (destruct r0; simpl; repeat case_match; simpl; lia).
  destruct (exp_sign r0) as [eneg r1]. simpl in L1.
  pose proof (span_digits_length r1) as L2.
  destruct (span_digits r1) as [d r2]. simpl in L2.
  repeat case_match; intros; simplify_eq/=; lia.
Qed.

Lemma lex_number_length neg bs n r :
  lex_number neg bs = Some (n, r) → (length r < length bs)%nat.
Proof.
  unfold lex_number.
  destruct (lex_int_part bs) as [[ip r1]|] eqn:E1; [|done].
  destruct (lex_frac_part r1) as [[fp r2]|] eqn:E2; [|done].
  destruct (lex_exp_part r2) as [[e r3]|] eqn:E3; [|done].
  apply lex_int_part_length in E1. apply lex_frac_part_length in E2.
  apply lex_exp_part_length in E3.
  repeat case_match; intros; simplify_eq/=; lia.
Qed.

Lemma lex_tokens_fuel n m bs :
  (length bs < n)%nat → (length bs < m)%nat → lex_tokens n bs = lex_tokens m bs.
Proof.
  revert m bs. induction n as [|n IH]; intros m bs Hn Hm; [lia|].
  destruct m as [|m]; [lia|]. cbn [lex_tokens].
  pose proof (skip_ws_length bs) as Hs.
  destruct (skip_ws bs) as [|b r] eqn:E; [done|]. simpl in Hs.
  pose proof (span_alnum_app (b :: r)) as A.
  destruct (span_alnum (b :: r)) as [w r'] eqn:Ew. simpl in A.
  apply (f_equal length) in A. rewrite length_app in A. clear Ew.
  repeat case_match; simplify_eq/=; try done;
  repeat match goal with
    | H : lex_string _ _ _ = Some _ |- _ => apply lex_string_length in H
    | H : lex_number _ _ = Some _ |- _ => apply lex_number_length in H
    | H : bool_decide _ = true |- _ => apply bool_decide_eq_true in H; subst
    end; simpl in *;
  f_equal; apply IH; lia.
Qed.

(** Each token takes at least one byte, so [S (length bs)] rounds of
    [lex_tokens] always suffice: the bound in [jsonb_in] never decides. *)
Lemma jsonb_in_fuel (s : string) (n : nat) :
  (length (bytes_of_string s) < n)%nat →
  jsonb_in s =
    if utf8_valid (bytes_of_string s) then
      match lex_tokens n (bytes_of_string s) with
      | Some toks => parse_tokens toks
      | None => None
      end
    else None.
Proof. intros Hn. unfold jsonb_in. by rewrite (lex_tokens_fuel _ n) by lia. Qed.

(** What PostgreSQL 16 answers for [SELECT '...'::jsonb]. *)
Example jsonb_text_spacing : jsonb_text "[1,2]" = Some "[1, 2]".
Proof. vm_compute. reflexivity. Qed.

Example jsonb_text_object : jsonb_text payloadTx = Some payloadTx_stored.
Proof. vm_compute. reflexivity. Qed.

Example jsonb_text_keys :
  jsonb_text ("{" +:+ jstr "bb" +:+ ":1," +:+ jstr "a" +:+ ":2," +:+ jstr "bb" +:+ ":3}")
  = Some ("{" +:+ jstr "a" +:+ ": 2, " +:+ jstr "bb" +:+ ": 3}").
Proof. vm_compute. reflexivity. Qed.

Example jsonb_text_numbers :
  jsonb_text "[1e2, 1.50, -0, -0.0, 1E-2, 12e-1]" = Some "[100, 1.50, 0, 0.0, 0.01, 1.2]".
Proof. vm_compute. reflexivity. Qed.

Example jsonb_text_escapes :
  jsonb_text (jstr "a\/b\u00e9\t") = Some (jstr ("a/b" +:+ String "195" (String "169" "\t"))).
Proof. vm_compute. reflexivity. Qed.

Example jsonb_text_refused :
  jsonb_text "declined" = None ∧ jsonb_text (jstr "\u0000") = None ∧
  jsonb_text (jstr "\ud83d") = None ∧ jsonb_text "[1,]" = None ∧
  jsonb_text "01" = None ∧ jsonb_text "" = None ∧
  jsonb_text (jstr (String "255" "")) = None.
Proof. vm_compute. repeat split. Qed.

(** ** The scenario of the specification *)

(** The succeeded branch answers with the cached response without
    comparing fingerprints: a different amount on key "A" is a [Replay]. *)
Example scenario1_eval :
  scenario1 = ([AcceptedNew; RejectedInProgress; Replay; Replay], None).
Proof. vm_compute. reflexivity. Qed.


Arguments Hash : simpl never.

(** ** Equations of the store operations *)

Lemma InsertOrGet_fresh req pid e now (db : DB) :
  db !! PaymentRequest.IdempotencyKey req = None →
  InsertOrGet req pid e now db =
    (new_row req (Hash req) pid e now, true,
     <[PaymentRequest.IdempotencyKey req := new_row req (Hash req) pid e now]> db).
Proof. intros H. unfold InsertOrGet. rewrite H. reflexivity. Qed.

Lemma InsertOrGet_existing req pid e now (db : DB) r :
  db !! PaymentRequest.IdempotencyKey req = Some r →
  InsertOrGet req pid e now db =
    (on_conflict_update r now, attempt_count r + 1 =? 1,
     <[PaymentRequest.IdempotencyKey req := on_conflict_update r now]> db).
Proof. intros H. unfold InsertOrGet. rewrite H. reflexivity. Qed.

Lemma ResetToProcessing_other key k pid e now (db : DB) :
  key ≠ k → ResetToProcessing key pid e now db !! k = db !! k.
Proof.
  intros Hne. unfold ResetToProcessing.
  destruct (db !! key); [|done].
  case_decide; [|done]. by rewrite lookup_insert_ne.
Qed.

(** ** C7: frame of [insert_or_bump] on an existing key and of
    [reset_to_processing] *)


(** ** C2: an expired row is reused, whatever its status and fingerprint *)


(** ** C3: one winner among calls serialized on the key *)



(** ** C4: completion followed by the same request *)


(** ** C1: the expired branch resets only [failed] rows *)


(** ** C9: what feeds the anomaly window *)

(** Pruning drops only entries that [Snapshot] does not count. *)
Lemma live_pruneWindow_from (cutoff c : Z) (w : list (Z * bool)) :
  c >= cutoff →
  filter (fun e : Z * bool => (c <? e.1) = true) (pruneWindow_from cutoff w) =
  filter (fun e : Z * bool => (c <? e.1) = true) w.
Proof.
  intros Hc. induction w as [|[ts d] w IH]; [done|]. simpl.
  destruct (ts <? cutoff) eqn:E; [|done].
  rewrite IH. rewrite filter_cons_False; [done|].
  simpl. apply Z.ltb_lt in E. rewrite (proj2 (Z.ltb_ge c ts)); [done|lia].
Qed.

Lemma Snapshot_after_add (isDup : bool) (now : Z) (w : list (Z * bool)) :
  let live := fun w' => filter (fun e : Z * bool => (now - windowDuration <? e.1) = true) w' in
  live (addWindow isDup now w) = live w ++ [(now, isDup)].
Proof.
  simpl. unfold addWindow, pruneWindow.
  rewrite live_pruneWindow_from by lia. rewrite filter_app.
  f_equal. rewrite filter_cons_True; [done|].
  simpl. apply Z.ltb_lt. unfold windowDuration. lia.
Qed.

(** C9. An invalid request ([InvalidRequest], HTTP 422) goes through
    [withMetrics] as a parameter mismatch: it adds one duplicate-ish entry
    to the window and one to the counted duplicates of the snapshot. *)
Theorem invalid_request_counts_as_duplicate (expiryTTL now : Z)
    (req : PaymentRequest.t) (db : DB) (m : Metrics.t) (msg : string) :
  validateRequest req = Some msg →
  let '(res, db', m') := ServePayment expiryTTL now req db m in
  outcome_of res = InvalidRequest ∧
  m' = RecordMismatch now m ∧
  MetricsSnapshot.WindowDuplicates (Snapshot now m') =
    MetricsSnapshot.WindowDuplicates (Snapshot now m) + 1.
Proof.
  intros Hv. unfold ServePayment, ProcessPayment. rewrite Hv. simpl.
  split; [reflexivity|]. split; [reflexivity|].
  unfold Snapshot. simpl. rewrite (Snapshot_after_add true now).
  rewrite filter_app, length_app. simpl. lia.
Qed.

(** ** C10: the payment identifier is the clock reading *)



(** ** C6: who writes [response_body] *)

(** C6. [InsertOrGet] and [ResetToProcessing] never change any stored
    payload (a new row has none); a successful [MarkComplete] sets the
    row's payload to the [jsonb] text of the supplied one ([body_param]),
    whatever the target status, and touches no other row's payload. *)
Theorem payload_written_only_by_completion (req : PaymentRequest.t)
    (pid : string) (e now : Z) (db : DB) (rk rpid : string) (re rnow : Z)
    (k : string) (st : Status) (body : option string) (cnow : Z) (k' : string) :
  payload_of (InsertOrGet req pid e now db).2 k' = payload_of db k' ∧
  payload_of (ResetToProcessing rk rpid re rnow db) k' = payload_of db k' ∧
  ((Repo_MarkComplete k st body cnow db).1 = None →
   body_param body = Some (payload_of (Repo_MarkComplete k st body cnow db).2 k) ∧
   status <$> (Repo_MarkComplete k st body cnow db).2 !! k = Some st ∧
   (k' ≠ k → payload_of (Repo_MarkComplete k st body cnow db).2 k' = payload_of db k')).
Proof.
  unfold payload_of. split; [|split].
  - unfold InsertOrGet. simpl.
    destruct (decide (PaymentRequest.IdempotencyKey req = k')) as [<-|Hne].
    + rewrite lookup_insert_eq. by destruct (db !! _).
    + by rewrite lookup_insert_ne.
  - unfold ResetToProcessing.
    destruct (db !! rk) as [r|] eqn:Hr; [|done]. case_decide; [|done].
    destruct (decide (rk = k')) as [<-|Hne].
    + by rewrite lookup_insert_eq, Hr.
    + by rewrite lookup_insert_ne.
  - unfold Repo_MarkComplete.
    destruct (body_param body) as [stored|]; [|done].
    destruct (pg_text_ok k); [|done]. simpl.
    destruct (db !! k) as [r|]; [|done]. case_decide; [|done].
    intros _. simpl. rewrite lookup_insert_eq. split; [done|]. split; [done|].
    intros Hne. by rewrite lookup_insert_ne.
Qed.

(** ** C5: the fingerprint *)

Lemma split_at_pipe (a b x y : string) :
  no_pipe a = true → no_pipe b = true →
  a +:+ String "|" x = b +:+ String "|" y → a = b ∧ x = y.
Proof.
  revert b. induction a as [|c a IH]; intros [|c' b] Ha Hb H; simpl in *.
  - by injection H.
  - injection H as <- _. done.
  - injection H as -> _. done.
  - apply andb_prop in Ha as [_ Ha]. apply andb_prop in Hb as [_ Hb].
    injection H as -> H. destruct (IH b Ha Hb H) as [-> ->]. done.
Qed.

Lemma no_pipe_pretty_N_go (x : N) : ∀ s, no_pipe s = true → no_pipe (pretty_N_go x s) = true.
Proof.
  pattern x. apply (well_founded_induction N.lt_wf_0). clear x. intros x IH s Hs.
  destruct (decide (x = 0%N)) as [->|Hx]; [by rewrite pretty_N_go_0|].
  rewrite pretty_N_go_step by lia. apply IH.
  - apply N.div_lt; lia.
  - simpl. rewrite Hs, andb_true_r.
    unfold pretty_N_char. by repeat case_match.
Qed.

Lemma no_pipe_pretty_N (n : N) : no_pipe (pretty n) = true.
Proof.
  unfold pretty, pretty_N. destruct (decide (n = 0%N)); [done|].
  by apply no_pipe_pretty_N_go.
Qed.

Lemma no_pipe_fmt_d (z : Z) : no_pipe (fmt_d z) = true.
Proof.
  destruct z as [|p|p]; [done| |].
  - exact (no_pipe_pretty_N (Npos p)).
  - exact (no_pipe_pretty_N (Npos p)).
Qed.

(** C5. The fingerprint depends on the four payment fields only, not on
    the idempotency key: equal fields give equal digests. Its input, the
    canonical text, tells apart any two field tuples whose merchant and
    customer ids contain no ['|'], so such tuples collide only through
    SHA-256 itself. *)
Theorem fingerprint_of_fields (p q : PaymentRequest.t) :
  (PaymentRequest.MerchantID p = PaymentRequest.MerchantID q →
   PaymentRequest.CustomerID p = PaymentRequest.CustomerID q →
   PaymentRequest.Amount p = PaymentRequest.Amount q →
   PaymentRequest.Currency p = PaymentRequest.Currency q →
   Hash p = Hash q) ∧
  (no_pipe (PaymentRequest.MerchantID p) = true →
   no_pipe (PaymentRequest.CustomerID p) = true →
   no_pipe (PaymentRequest.MerchantID q) = true →
   no_pipe (PaymentRequest.CustomerID q) = true →
   canonical p = canonical q →
   PaymentRequest.MerchantID p = PaymentRequest.MerchantID q ∧
   PaymentRequest.CustomerID p = PaymentRequest.CustomerID q ∧
   PaymentRequest.Amount p = PaymentRequest.Amount q ∧
   PaymentRequest.Currency p = PaymentRequest.Currency q).
Proof.
  destruct p as [kp mp cp ap up], q as [kq mq cq aq uq]; simpl. split.
  - intros -> -> -> ->. reflexivity.
  - intros Hmp Hcp Hmq Hcq H. unfold canonical in H; simpl in H.
    apply split_at_pipe in H as [-> H]; [|done|done].
    apply split_at_pipe in H as [-> H]; [|done|done].
    apply split_at_pipe in H as [Ha ->]; [|apply no_pipe_fmt_d|apply no_pipe_fmt_d].
    unfold fmt_d in Ha. apply (inj pretty) in Ha as ->. done.
Qed.

(** ** C8: the duplicate report *)

Lemma wrap64_small (z : Z) : - 2 ^ 63 <= z < 2 ^ 63 → wrap64 z = z.
Proof. unfold wrap64. intros. rewrite Z.mod_small; lia. Qed.

Lemma sumZ_nonneg (l : list Z) : Forall (fun z => 0 <= z) l → 0 <= sumZ l.
Proof. induction 1; simpl; lia. Qed.

Lemma sumZ_perm (l1 l2 : list Z) : l1 ≡ₚ l2 → sumZ l1 = sumZ l2.
Proof. induction 1; simpl; lia. Qed.

Lemma Forall_at_risk_nonneg (l : list IdempotencyRecord.t) :
  Forall (fun r => 0 <= at_risk r) l →
  Forall (fun z => 0 <= z) (at_risk <$> l).
Proof. intros. by apply Forall_fmap. Qed.

Lemma Forall_filter_sub {A} (P : A → Prop) (Q : A → Prop) `{∀ x, Decision (Q x)}
    (l : list A) :
  Forall P l → Forall P (filter Q l).
Proof.
  rewrite !Forall_forall. intros HP x Hx.
  apply list_elem_of_filter in Hx as [_ Hx]. by apply HP.
Qed.

Lemma sumZ_filter_le (P : IdempotencyRecord.t → Prop) `{∀ r, Decision (P r)}
    (l : list IdempotencyRecord.t) :
  Forall (fun r => 0 <= at_risk r) l →
  sumZ (at_risk <$> filter P l) <= sumZ (at_risk <$> l).
Proof.
  induction 1 as [|x l Hx Hl IH]; [simpl; lia|].
  rewrite filter_cons, fmap_cons. cbn [sumZ].
  case_decide; [rewrite fmap_cons; cbn [sumZ]; lia|].
  pose proof (sumZ_nonneg _ (Forall_at_risk_nonneg _ Hl)) as Hn. lia.
Qed.

Lemma report_step_eq s a b d :
  report_step (s, a, b) d =
    (if suspiciousThreshold <? attempt_count d then s ++ [to_suspicious d] else s,
     wrap64 (a + wrap64 (at_risk d)),
     <[currency d := wrap64 (bd_get b (currency d) + wrap64 (at_risk d))]> b).
Proof. reflexivity. Qed.

(** The loop of [GetDuplicateReport] while no int64 sum overflows. *)
Lemma report_loop (l : list IdempotencyRecord.t) :
  ∀ (s : list SuspiciousKey.t) (a : Z) (b : gmap string Z),
  Forall (fun r => 0 <= at_risk r) l →
  0 <= a → (∀ c, 0 <= bd_get b c) →
  a + sumZ (at_risk <$> l) < 2 ^ 63 →
  (∀ c, bd_get b c + sumZ (at_risk <$> filter (fun r => currency r = c) l) < 2 ^ 63) →
  let '(s', a', b') := fold_left report_step l (s, a, b) in
  s' = s ++ (to_suspicious <$> filter (fun r => suspiciousThreshold < attempt_count r) l) ∧
  a' = a + sumZ (at_risk <$> l) ∧
  ∀ c, bd_get b' c = bd_get b c + sumZ (at_risk <$> filter (fun r => currency r = c) l).
Proof.
  induction l as [|d l IH]; intros s a b Hnn Ha Hb Hs Hc.
  { simpl. rewrite app_nil_r. split; [done|]. split; [lia|]. intros; lia. }
  inversion Hnn as [|? ? Hd Hl]; subst.
  pose proof (sumZ_nonneg _ (Forall_at_risk_nonneg _ Hl)) as Hsum.
  pose proof (Hc (currency d)) as Hcd.
  rewrite filter_cons_True, fmap_cons in Hcd by done. cbn [sumZ] in Hcd.
  pose proof (sumZ_nonneg _ (Forall_at_risk_nonneg
    (filter (fun r => currency r = currency d) l) (Forall_filter_sub _ _ _ Hl))) as Hsd.
  rewrite fmap_cons in Hs. cbn [sumZ] in Hs.
  cbn [fold_left]. rewrite report_step_eq.
  rewrite (wrap64_small (at_risk d)) by lia.
  rewrite (wrap64_small (a + at_risk d)) by lia.
  pose proof (Hb (currency d)) as Hbd.
  rewrite (wrap64_small (bd_get b (currency d) + at_risk d)) by lia.
  set (b1 := <[currency d := bd_get b (currency d) + at_risk d]> b).
  set (s1 := if suspiciousThreshold <? attempt_count d then s ++ [to_suspicious d] else s).
  assert (Hb1 : ∀ c, bd_get b1 c =
            bd_get b c + (if decide (currency d = c) then at_risk d else 0)).
  { intros c. unfold b1, bd_get. case_decide as Heq.
    - subst c. rewrite lookup_insert_eq. simpl. lia.
    - rewrite lookup_insert_ne by done. lia. }
  assert (Hb1' : ∀ c, 0 <= bd_get b1 c).
  { intros c. rewrite Hb1. specialize (Hb c). case_decide; lia. }
  assert (Hc1 : ∀ c, bd_get b1 c +
            sumZ (at_risk <$> filter (fun r => currency r = c) l) < 2 ^ 63).
  { intros c. rewrite Hb1. specialize (Hc c). rewrite filter_cons in Hc.
    case_decide as Heq.
    - rewrite fmap_cons in Hc. cbn [sumZ] in Hc. lia.
    - lia. }
  specialize (IH s1 (a + at_risk d) b1 Hl ltac:(lia) Hb1' ltac:(lia) Hc1).
  { destruct (fold_left report_step l (s1, a + at_risk d, b1)) as [[s' a'] b'].
    destruct IH as (-> & -> & IHc). split; [|split].
    + unfold s1. rewrite filter_cons. unfold suspiciousThreshold.
      destruct (3 <? attempt_count d) eqn:E.
      * apply Z.ltb_lt in E. rewrite decide_True by done. rewrite fmap_cons.
        by rewrite <- app_assoc.
      * apply Z.ltb_ge in E. rewrite decide_False by lia. done.
    + rewrite fmap_cons. cbn [sumZ]. lia.
    + intros c. rewrite IHc, Hb1, filter_cons. case_decide as Heq.
      * rewrite fmap_cons. cbn [sumZ]. lia.
      * lia. }
Qed.

Lemma elem_of_rows (db : DB) (r : IdempotencyRecord.t) :
  r ∈ rows db ↔ ∃ k, db !! k = Some r.
Proof.
  unfold rows. rewrite list_elem_of_fmap. split.
  - intros ([k r'] & -> & Hk). apply elem_of_map_to_list in Hk. by exists k.
  - intros [k Hk]. exists (k, r). split; [done|]. by apply elem_of_map_to_list.
Qed.

Lemma report_loop_suspicious (l : list IdempotencyRecord.t) :
  ∀ (s : list SuspiciousKey.t) (a : Z) (b : gmap string Z),
  (fold_left report_step l (s, a, b)).1.1 =
    s ++ (to_suspicious <$> filter (fun r => suspiciousThreshold < attempt_count r) l).
Proof.
  induction l as [|d l IH]; intros s a b.
  - simpl. by rewrite app_nil_r.
  - cbn [fold_left]. rewrite report_step_eq, IH, filter_cons.
    unfold suspiciousThreshold.
    destruct (3 <? attempt_count d) eqn:E.
    + apply Z.ltb_lt in E. rewrite decide_True by done. rewrite fmap_cons.
      by rewrite <- app_assoc.
    + apply Z.ltb_ge in E. rewrite decide_False by lia. done.
Qed.

(** C8: the duplicate report. Its duplicate count is total minus unique;
    its rate is Go's [float64] computation of
    [duplicate_count / total_requests * 100] (0 when there is no request);
    its suspicious keys are exactly the in-range rows with more than 3
    attempts. When every stored amount is non-negative, every attempt count
    at least 1 and the total amount at risk fits in a Go [int64], its
    amount at risk is the sum of [amount * (attempt_count - 1)] over the
    in-range duplicate rows, and its currency breakdown holds that sum per
    currency. *)
Theorem duplicate_report_fields (merchantID : string) (from to : Z) (db : DB) :
  let rep := GetDuplicateReport merchantID from to db in
  DuplicateReport.DuplicateCount rep =
    DuplicateReport.TotalRequests rep - DuplicateReport.UniquePayments rep ∧
  (DuplicateReport.TotalRequests rep <= 0 → DuplicateReport.DuplicateRate rep = float64 0) ∧
  (0 < DuplicateReport.TotalRequests rep →
   DuplicateReport.DuplicateRate rep =
     (float64 (DuplicateReport.DuplicateCount rep) /
      float64 (DuplicateReport.TotalRequests rep) * float64 100)%float) ∧
  DuplicateReport.SuspiciousKeys rep ≡ₚ to_suspicious <$> suspicious_rows merchantID from to db ∧
  (∀ sk, sk ∈ DuplicateReport.SuspiciousKeys rep ↔
     ∃ k r, db !! k = Some r ∧ in_range merchantID from to r = true ∧
            3 < attempt_count r ∧ sk = to_suspicious r) ∧
  ((∀ k r, db !! k = Some r → 0 <= amount r ∧ 1 <= attempt_count r) →
   sumZ (at_risk <$> in_range_dups merchantID from to db) < 2 ^ 63 →
   DuplicateReport.AmountAtRisk rep = sumZ (at_risk <$> in_range_dups merchantID from to db) ∧
   ∀ c, bd_get (DuplicateReport.CurrencyBreakdown rep) c =
        sumZ (at_risk <$> filter (fun r => currency r = c) (in_range_dups merchantID from to db))).
Proof.
  intros rep.
  set (dups := in_range_dups merchantID from to db) in *.
  assert (Hperm : GetDuplicates merchantID from to db ≡ₚ dups)
    by apply merge_sort_Permutation.
  assert (Hsusp : to_suspicious <$> filter (fun r => suspiciousThreshold < attempt_count r)
                    (GetDuplicates merchantID from to db) ≡ₚ
                  to_suspicious <$> suspicious_rows merchantID from to db).
  { rewrite Hperm. unfold dups, in_range_dups, suspicious_rows.
    rewrite list_filter_filter. f_equiv. apply reflexive_eq, list_filter_iff.
    intros r. unfold suspiciousThreshold. rewrite andb_true_iff, Z.ltb_lt.
    split; [intros (? & ? & ?)|intros (? & ?)]; repeat split; auto; lia. }
  pose proof (report_loop_suspicious (GetDuplicates merchantID from to db) [] 0 ∅) as Hs0.
  unfold rep, GetDuplicateReport.
  destruct (GetMerchantStats merchantID from to db) as [total unique] eqn:Hstats.
  destruct (fold_left report_step (GetDuplicates merchantID from to db) ([], 0, ∅))
    as [[s' a'] b'] eqn:Hfold.
  simpl in Hs0.
  cbn [DuplicateReport.DuplicateCount DuplicateReport.TotalRequests
       DuplicateReport.UniquePayments DuplicateReport.DuplicateRate
       DuplicateReport.SuspiciousKeys DuplicateReport.AmountAtRisk
       DuplicateReport.CurrencyBreakdown].
  assert (Hsk : s' ≡ₚ to_suspicious <$> suspicious_rows merchantID from to db)
    by (rewrite Hs0; exact Hsusp).
  split; [done|]. split; [|split; [|split; [exact Hsk|split]]].
  - intros Hle. destruct (0 <? total) eqn:E; [apply Z.ltb_lt in E; lia|done].
  - intros Hlt. apply Z.ltb_lt in Hlt. by rewrite Hlt.
  - intros sk. rewrite Hsk, list_elem_of_fmap. split.
    + intros (r & -> & Hr). unfold suspicious_rows in Hr.
      apply list_elem_of_filter in Hr as [[Hin Hat] Hr].
      apply elem_of_rows in Hr as [k Hk]. exists k, r. done.
    + intros (k & r & Hk & Hin & Hat & ->). exists r. split; [done|].
      unfold suspicious_rows. apply list_elem_of_filter. split; [done|].
      apply elem_of_rows. by exists k.
  - intros Hdb Hbound.
    assert (Hnn : Forall (fun r => 0 <= at_risk r) dups).
    { apply Forall_forall. intros r Hr.
      unfold dups, in_range_dups in Hr. apply list_elem_of_filter in Hr as [Hf Hr].
      apply elem_of_rows in Hr as [k Hk]. destruct (Hdb k r Hk) as [Ha Hatt].
      apply andb_prop in Hf as [_ Hf]. apply Z.ltb_lt in Hf.
      unfold at_risk. nia. }
    assert (Hnn' : Forall (fun r => 0 <= at_risk r) (GetDuplicates merchantID from to db))
      by (by rewrite Hperm).
    assert (Hsum : sumZ (at_risk <$> GetDuplicates merchantID from to db) =
                   sumZ (at_risk <$> dups)) by (apply sumZ_perm; by rewrite Hperm).
    assert (Hsumc : ∀ c,
      sumZ (at_risk <$> filter (fun r => currency r = c) (GetDuplicates merchantID from to db)) =
      sumZ (at_risk <$> filter (fun r => currency r = c) dups))
      by (intros c; apply sumZ_perm; by rewrite Hperm).
    pose proof (report_loop (GetDuplicates merchantID from to db) [] 0 ∅ Hnn'
      ltac:(lia) ltac:(intros c; unfold bd_get; rewrite lookup_empty; simpl; lia)) as Hloop.
    assert (Ha0 : 0 + sumZ (at_risk <$> GetDuplicates merchantID from to db) < 2 ^ 63)
      by (rewrite Hsum; lia).
    specialize (Hloop Ha0).
    assert (Hc : ∀ c, bd_get ∅ c + sumZ (at_risk <$> filter (fun r => currency r = c)
                                     (GetDuplicates merchantID from to db)) < 2 ^ 63).
    { intros c. rewrite Hsumc. pose proof (sumZ_filter_le (fun r => currency r = c) dups Hnn).
      unfold bd_get. rewrite lookup_empty. simpl. lia. }
    specialize (Hloop Hc). rewrite Hfold in Hloop.
    destruct Hloop as (_ & Ha' & Hb'). split.
    + lia.
    + intros c. rewrite Hb', Hsumc. unfold bd_get. rewrite lookup_empty. simpl. lia.
Qed.

(* ================================================================== *)
(** * Instances on concrete states *)






Lemma invalid_request_counts_as_duplicate_witness :
  validateRequest reqNoMerchant = Some "merchant_id is required" ∧
  (let '(res, db', m') := ServePayment 100 50 reqNoMerchant ∅ NewMetrics in
   outcome_of res = InvalidRequest ∧
   m' = RecordMismatch 50 NewMetrics ∧
   MetricsSnapshot.WindowDuplicates (Snapshot 50 m') =
     MetricsSnapshot.WindowDuplicates (Snapshot 50 NewMetrics) + 1).
Proof.
  assert (H : validateRequest reqNoMerchant = Some "merchant_id is required")
    by (vm_compute; reflexivity).
  exact (conj H (invalid_request_counts_as_duplicate 100 50 reqNoMerchant ∅ NewMetrics _ H)).
Defined.


Lemma payload_written_only_by_completion_witness :
  (Repo_MarkComplete "A" StatusFailed (Some payloadTx) 20 dbA).1 = None ∧
  body_param (Some payloadTx) =
    Some (payload_of (Repo_MarkComplete "A" StatusFailed (Some payloadTx) 20 dbA).2 "A") ∧
  status <$> (Repo_MarkComplete "A" StatusFailed (Some payloadTx) 20 dbA).2 !! "A" =
    Some StatusFailed.
Proof.
  assert (H : (Repo_MarkComplete "A" StatusFailed (Some payloadTx) 20 dbA).1 = None)
    by (vm_compute; reflexivity).
  destruct (payload_written_only_by_completion reqA "pay_20" 120 20 dbA "A" "pay_30" 130 30
              "A" StatusFailed (Some payloadTx) 20 "B") as (_ & _ & Hc).
  destruct (Hc H) as (Hp & Hs & _).
  exact (conj H (conj Hp Hs)).
Defined.

Lemma fingerprint_of_fields_witness :
  Hash reqA = Hash reqB ∧ no_pipe "m1" = true ∧ no_pipe "c1" = true ∧
  canonical reqA ≠ canonical reqA'.
Proof.
  destruct (fingerprint_of_fields reqA reqB) as [Heq _].
  destruct (fingerprint_of_fields reqA reqA') as [_ Hinj].
  assert (Hm : no_pipe "m1" = true) by reflexivity.
  assert (Hc : no_pipe "c1" = true) by reflexivity.
  split; [apply Heq; reflexivity|]. split; [exact Hm|]. split; [exact Hc|].
  intros Hcan. destruct (Hinj Hm Hc Hm Hc Hcan) as (_ & _ & Ha & _).
  simpl in Ha. lia.
Defined.

Lemma duplicate_report_fields_witness :
  (∀ k r, dbReport !! k = Some r → 0 <= amount r ∧ 1 <= attempt_count r) ∧
  sumZ (at_risk <$> in_range_dups "m1" 0 100 dbReport) < 2 ^ 63 ∧
  DuplicateReport.AmountAtRisk (GetDuplicateReport "m1" 0 100 dbReport) =
    sumZ (at_risk <$> in_range_dups "m1" 0 100 dbReport) ∧
  (∀ sk, sk ∈ DuplicateReport.SuspiciousKeys (GetDuplicateReport "m1" 0 100 dbReport) ↔
     ∃ k r, dbReport !! k = Some r ∧ in_range "m1" 0 100 r = true ∧
            3 < attempt_count r ∧ sk = to_suspicious r).
Proof.
  assert (H1 : ∀ k r, dbReport !! k = Some r → 0 <= amount r ∧ 1 <= attempt_count r).
  { change (map_Forall (fun _ r => 0 <= amount r ∧ 1 <= attempt_count r) dbReport).
    apply (bool_decide_unpack _). vm_compute. reflexivity. }
  assert (H2 : sumZ (at_risk <$> in_range_dups "m1" 0 100 dbReport) < 2 ^ 63)
    by (vm_compute; reflexivity).
  destruct (duplicate_report_fields "m1" 0 100 dbReport)
    as (_ & _ & _ & _ & Hsk & Hamt).
  destruct (Hamt H1 H2) as [Ha _].
  exact (conj H1 (conj H2 (conj Ha Hsk))).
Defined.

(** * Counterexamples *)

(** Against C5 (iii): two tuples that differ in merchant and customer id
    have the same canonical text, hence the same digest. *)
Lemma fingerprint_pipe_collision :
  PaymentRequest.MerchantID (PaymentRequest.mk "k1" "m|c" "x" 100 "USD") ≠
    PaymentRequest.MerchantID (PaymentRequest.mk "k2" "m" "c|x" 100 "USD") ∧
  Hash (PaymentRequest.mk "k1" "m|c" "x" 100 "USD") =
    Hash (PaymentRequest.mk "k2" "m" "c|x" 100 "USD").
Proof. split; [discriminate | vm_compute; reflexivity]. Qed.


(** Against C6: a [failed] completion with a payload, then a reset, leave
    a payload on a row that is [failed], then [processing]. *)
Lemma failed_row_keeps_payload :
  let db1 := (InsertOrGet reqA "pay_10" 110 10 ∅).2 in
  let db2 := (Repo_MarkComplete "A" StatusFailed (Some payloadTx) 20 db1).2 in
  let db3 := ResetToProcessing "A" "pay_30" 130 30 db2 in
  status <$> db2 !! "A" = Some StatusFailed ∧ payload_of db2 "A" = Some payloadTx_stored ∧
  status <$> db3 !! "A" = Some StatusProcessing ∧ payload_of db3 "A" = Some payloadTx_stored.
Proof. vm_compute. repeat split. Qed.

(** Against C8: one key of amount [2^62] called three times puts [2^63] at
    risk, which the Go [int64] sum wraps to [-2^63]; and with 11 duplicates
    among 20 requests the [float64] rate is not 55 but the next double above
    it (55.00000000000001). *)
Lemma duplicate_report_overflow_and_rounding :
  sumZ (at_risk <$> in_range_dups "m1" 0 100 dbBig) = 2 ^ 63 ∧
  DuplicateReport.AmountAtRisk (GetDuplicateReport "m1" 0 100 dbBig) = - 2 ^ 63 ∧
  DuplicateReport.TotalRequests (GetDuplicateReport "m1" 0 100 dbRate) = 20 ∧
  DuplicateReport.DuplicateCount (GetDuplicateReport "m1" 0 100 dbRate) = 11 ∧
  DuplicateReport.DuplicateRate (GetDuplicateReport "m1" 0 100 dbRate) ≠ float64 55 ∧
  DuplicateReport.DuplicateRate (GetDuplicateReport "m1" 0 100 dbRate) =
    PrimFloat.next_up (float64 55).
Proof.
  split; [vm_compute; reflexivity|]. split; [vm_compute; reflexivity|].
  split; [vm_compute; reflexivity|]. split; [vm_compute; reflexivity|].
  split; [vm_compute; discriminate|vm_compute; reflexivity].
Qed.


(** * Further properties of the code *)

Lemma store_inv_insert (db : DB) k r :
  store_inv db → idempotency_key r = k → 1 <= attempt_count r → store_inv (<[k := r]> db).
Proof.
  intros H Hk Ha k' r'. destruct (decide (k = k')) as [<-|Hne].
  - rewrite lookup_insert_eq. intros [= <-]. auto.
  - rewrite lookup_insert_ne by done. apply H.
Qed.

Lemma store_inv_ResetToProcessing (db : DB) key pid e now :
  store_inv db → store_inv (ResetToProcessing key pid e now db).
Proof.
  intros H. unfold ResetToProcessing.
  destruct (db !! key) as [r|] eqn:E; [|done].
  case_decide; [|done]. destruct (H _ _ E).
  apply store_inv_insert; simpl; auto.
Qed.

Lemma store_inv_Repo_MarkComplete (db : DB) key st body now :
  store_inv db → store_inv (Repo_MarkComplete key st body now db).2.
Proof.
  intros H. unfold Repo_MarkComplete.
  destruct (body_param body) as [stored|]; [|done].
  destruct (pg_text_ok key); [|done]. simpl.
  destruct (db !! key) as [r|] eqn:E; [|done].
  case_decide; [|done]. destruct (H _ _ E).
  apply store_inv_insert; simpl; auto.
Qed.

(** [InsertOrGet] on a store that keeps [store_inv]: the row returned is
    stored under the request's key, and it is new exactly when the key was
    absent. *)
Lemma InsertOrGet_inv (req : PaymentRequest.t) pid e now (db : DB) :
  store_inv db →
  let key := PaymentRequest.IdempotencyKey req in
  let rec := match db !! key with
             | None => new_row req (Hash req) pid e now
             | Some r => on_conflict_update r now
             end in
  InsertOrGet req pid e now db = (rec, bool_decide (db !! key = None), <[key := rec]> db)
  ∧ idempotency_key rec = key ∧ 1 <= attempt_count rec.
Proof.
  intros H key rec. subst key rec.
  destruct (db !! PaymentRequest.IdempotencyKey req) as [r|] eqn:E.
  - destruct (H _ _ E) as [Hk Ha]. rewrite (InsertOrGet_existing _ _ _ _ _ r E).
    rewrite bool_decide_false by congruence. simpl.
    split; [|split; [done|lia]].
    do 2 f_equal. apply Z.eqb_neq. lia.
  - rewrite (InsertOrGet_fresh _ _ _ _ _ E). rewrite bool_decide_true by done.
    simpl. split; [done|split; [done|lia]].
Qed.

Lemma store_inv_InsertOrGet (req : PaymentRequest.t) pid e now (db : DB) :
  store_inv db → store_inv (InsertOrGet req pid e now db).2.
Proof.
  intros H. destruct (InsertOrGet_inv req pid e now db H) as (-> & Hk & Ha).
  apply store_inv_insert; auto.
Qed.

Lemma store_inv_ProcessPayment expiryTTL now req (db : DB) :
  store_inv db → store_inv (ProcessPayment expiryTTL now req db).2.
Proof.
  intros H. unfold ProcessPayment.
  destruct (validateRequest req); [done|].
  pose proof (store_inv_InsertOrGet req (generatePaymentID now) (now + expiryTTL) now db H) as H1.
  destruct (InsertOrGet _ _ _ _ _) as [[rec isNew] db1]. simpl in H1.
  destruct isNew; [done|].
  destruct (IsExpired rec now); [by apply store_inv_ResetToProcessing|].
  destruct (status rec); try destruct (negb _); try done; by apply store_inv_ResetToProcessing.
Qed.

(** X3. The store invariant (each row sits under its own key and has at least
    one attempt) is kept by [ProcessPayment], by the completion service and
    by [DeleteExpired]. *)
Theorem store_inv_preserved (expiryTTL now : Z) (req : PaymentRequest.t)
    (key : string) (creq : CompleteRequest.t) (db : DB) :
  store_inv db →
  store_inv (ProcessPayment expiryTTL now req db).2
  ∧ store_inv (Service_MarkComplete key creq now db).2
  ∧ store_inv (DeleteExpired now db).2.
Proof.
  intros H. split; [by apply store_inv_ProcessPayment|split].
  - unfold Service_MarkComplete.
    destruct (String.eqb _ "succeeded"); [by apply store_inv_Repo_MarkComplete|].
    destruct (String.eqb _ "failed"); [by apply store_inv_Repo_MarkComplete|done].
  - intros k r. simpl. rewrite map_lookup_filter_Some. intros [Hk _]. by apply H.
Qed.

(** X2. On a store where each row sits under its own key with at least one
    attempt, [ProcessPayment] changes no row other than the one under the
    request's idempotency key. *)
Theorem ProcessPayment_frame (expiryTTL now : Z) (req : PaymentRequest.t) (db : DB) (k : string) :
  store_inv db → k ≠ PaymentRequest.IdempotencyKey req →
  (ProcessPayment expiryTTL now req db).2 !! k = db !! k.
Proof.
  intros H Hne. unfold ProcessPayment.
  destruct (validateRequest req); [done|].
  destruct (InsertOrGet_inv req (generatePaymentID now) (now + expiryTTL) now db H)
    as (-> & Hk & _).
  cbn iota beta.
  set (rec := match db !! _ with Some r => _ | None => _ end) in *.
  assert (Hins : <[PaymentRequest.IdempotencyKey req := rec]> db !! k = db !! k)
    by (rewrite lookup_insert_ne; auto).
  destruct (bool_decide _); [done|].
  destruct (IsExpired rec now).
  { simpl. rewrite ResetToProcessing_other by congruence. done. }
  destruct (status rec); try destruct (negb _); simpl; try done;
    rewrite ResetToProcessing_other by congruence; done.
Qed.








Lemma validateRequest_None_iff (req : PaymentRequest.t) :
  validateRequest req = None ↔
  PaymentRequest.IdempotencyKey req ≠ "" ∧ PaymentRequest.MerchantID req ≠ ""
  ∧ PaymentRequest.CustomerID req ≠ "" ∧ 0 <= PaymentRequest.Amount req
  ∧ PaymentRequest.Currency req ≠ "".
Proof.
  unfold validateRequest.
  destruct (String.eqb_spec (PaymentRequest.IdempotencyKey req) ""); [split; [done|tauto]|].
  destruct (String.eqb_spec (PaymentRequest.MerchantID req) ""); [split; [done|tauto]|].
  destruct (String.eqb_spec (PaymentRequest.CustomerID req) ""); [split; [done|tauto]|].
  destruct (Z.ltb_spec (PaymentRequest.Amount req) 0); [split; [done|lia]|].
  destruct (String.eqb_spec (PaymentRequest.Currency req) ""); [split; [done|tauto]|].
  tauto.
Qed.

(** X1. [ProcessPayment] answers 422 with a validation error exactly when the
    idempotency key, merchant, customer or currency is empty or the amount is
    negative, and it then leaves the store unchanged. *)
Theorem invalid_request_rejected (expiryTTL now : Z) (req : PaymentRequest.t) (db : DB) :
  ((∃ m, (ProcessPayment expiryTTL now req db).1 = Err 422 (ErrValidation m)) ↔
    PaymentRequest.IdempotencyKey req = "" ∨ PaymentRequest.MerchantID req = ""
    ∨ PaymentRequest.CustomerID req = "" ∨ PaymentRequest.Amount req < 0
    ∨ PaymentRequest.Currency req = "")
  ∧ ∀ m, (ProcessPayment expiryTTL now req db).1 = Err 422 (ErrValidation m) →
         (ProcessPayment expiryTTL now req db).2 = db.
Proof.
  assert (Hnone : validateRequest req = None →
            ∀ m, (ProcessPayment expiryTTL now req db).1 ≠ Err 422 (ErrValidation m)).
  { intros Hv m. unfold ProcessPayment. rewrite Hv.
    destruct (InsertOrGet _ _ _ _ _) as [[rec isNew] db1].
    destruct isNew; [done|]. destruct (IsExpired rec now); [done|].
    destruct (status rec); try destruct (negb _); done. }
  pose proof (validateRequest_None_iff req) as Hiff.
  destruct (validateRequest req) as [m|] eqn:Hv.
  - assert (Hm : (ProcessPayment expiryTTL now req db) = (Err 422 (ErrValidation m), db))
      by (unfold ProcessPayment; rewrite Hv; reflexivity).
    rewrite Hm. simpl. split; [|done]. split; [|eauto].
    intros _. destruct (decide (PaymentRequest.IdempotencyKey req = "")); [tauto|].
    destruct (decide (PaymentRequest.MerchantID req = "")); [tauto|].
    destruct (decide (PaymentRequest.CustomerID req = "")); [tauto|].
    destruct (decide (PaymentRequest.Amount req < 0)); [tauto|].
    destruct (decide (PaymentRequest.Currency req = "")); [tauto|].
    assert (Some m = None) by (apply Hiff; repeat split; auto; lia). done.
  - split; [split|].
    + intros [m Hm]. by destruct (Hnone eq_refl m).
    + intros Hbad. exfalso. destruct (proj1 Hiff eq_refl) as (? & ? & ? & ? & ?).
      destruct Hbad as [|[|[|[|]]]]; auto; lia.
    + intros m Hm. by destruct (Hnone eq_refl m).
Qed.


Lemma Service_MarkComplete_effect (key : string) (creq : CompleteRequest.t) (now : Z) (db : DB) :
  let '(err, db') := Service_MarkComplete key creq now db in
  (err = None ↔
     (CompleteRequest.Status creq = "succeeded" ∨ CompleteRequest.Status creq = "failed")
     ∧ body_param (CompleteRequest.ResponseBody creq) ≠ None
     ∧ pg_text_ok key = true
     ∧ ∃ r, db !! key = Some r ∧ status r = StatusProcessing)
  ∧ (err ≠ None → db' = db)
  ∧ (err = None →
     (∀ k, k ≠ key → db' !! k = db !! k)
     ∧ ∃ r r', db !! key = Some r ∧ db' !! key = Some r'
       ∧ status r' = target_status creq
       ∧ body_param (CompleteRequest.ResponseBody creq) = Some (response_body r')
       ∧ completed_at r' = Some now
       ∧ idempotency_key r' = idempotency_key r ∧ payment_id r' = payment_id r
       ∧ request_hash r' = request_hash r ∧ attempt_count r' = attempt_count r
       ∧ first_seen_at r' = first_seen_at r ∧ last_seen_at r' = last_seen_at r
       ∧ expires_at r' = expires_at r).
Proof.
  unfold Service_MarkComplete, target_status.
  destruct (String.eqb_spec (CompleteRequest.Status creq) "succeeded") as [Hs|Hs];
  [|destruct (String.eqb_spec (CompleteRequest.Status creq) "failed") as [Hf|Hf]].
  3: { split; [split; [done|intros [[|] _]; done]|]. split; done. }
  all: unfold Repo_MarkComplete.
  all: destruct (body_param (CompleteRequest.ResponseBody creq)) as [stored|] eqn:Eb;
    [|split; [split; [done|intros (_ & Hb & _); done]|split; done]].
  all: destruct (pg_text_ok key) eqn:Ek; simpl;
    [|split; [split; [done|intros (_ & _ & Hk & _); done]|split; done]].
  all: destruct (db !! key) as [r|] eqn:E;
    [|split; [split; [done|intros (_ & _ & _ & ? & [=] & _)]|split; done]].
  all: case_decide as Hp;
    [|split; [split; [done|intros (_ & _ & _ & r' & [= <-] & ?); done]|split; done]].
  all: split; [split; [intros _; repeat split; eauto|done]|split; [done|intros _]].
  all: split; [intros k Hk; by rewrite lookup_insert_ne|].
  all: eexists _, _; split; [reflexivity|]; rewrite lookup_insert_eq;
    split; [reflexivity|]; simpl; repeat split; auto.
Qed.

(** X8. The completion service succeeds exactly when the status is succeeded or
    failed, the server accepts the body as [jsonb] and the key as text, and
    the key holds a processing row; on failure the store is unchanged; on
    success only that row changes, taking the target status, the [jsonb]
    text of the body and the completion time, its other fields kept. *)
Theorem completion_effect (key : string) (creq : CompleteRequest.t) (now : Z) (db : DB) :
  let '(err, db') := Service_MarkComplete key creq now db in
  (err = None ↔
     (CompleteRequest.Status creq = "succeeded" ∨ CompleteRequest.Status creq = "failed")
     ∧ body_param (CompleteRequest.ResponseBody creq) ≠ None
     ∧ pg_text_ok key = true
     ∧ ∃ r, db !! key = Some r ∧ status r = StatusProcessing)
  ∧ (err ≠ None → db' = db)
  ∧ (err = None →
     (∀ k, k ≠ key → db' !! k = db !! k)
     ∧ ∃ r r', db !! key = Some r ∧ db' !! key = Some r'
       ∧ status r' = target_status creq
       ∧ body_param (CompleteRequest.ResponseBody creq) = Some (response_body r')
       ∧ completed_at r' = Some now
       ∧ idempotency_key r' = idempotency_key r ∧ payment_id r' = payment_id r
       ∧ request_hash r' = request_hash r ∧ attempt_count r' = attempt_count r
       ∧ first_seen_at r' = first_seen_at r ∧ last_seen_at r' = last_seen_at r
       ∧ expires_at r' = expires_at r).
Proof. exact (Service_MarkComplete_effect key creq now db). Qed.

(** X9. A completion that succeeded cannot be repeated: any second completion
    of the same key fails and leaves the store as the first one left it. *)
Theorem completion_is_final (key : string) (c1 c2 : CompleteRequest.t) (t1 t2 : Z) (db db1 : DB) :
  Service_MarkComplete key c1 t1 db = (None, db1) →
  (Service_MarkComplete key c2 t2 db1).1 ≠ None ∧ (Service_MarkComplete key c2 t2 db1).2 = db1.
Proof.
  intros H1. pose proof (Service_MarkComplete_effect key c1 t1 db) as Hc. rewrite H1 in Hc.
  destruct Hc as (_ & _ & Hc). destruct (Hc eq_refl) as (_ & r & r' & _ & E' & Hst & _).
  assert (Hnp : status r' ≠ StatusProcessing)
    by (rewrite Hst; unfold target_status; by destruct (String.eqb _ _)).
  pose proof (Service_MarkComplete_effect key c2 t2 db1) as Hc2.
  destruct (Service_MarkComplete key c2 t2 db1) as [err db2].
  destruct Hc2 as (Hiff & Hsame & _). simpl.
  assert (Herr : err ≠ None)
    by (intros Hn; destruct (proj1 Hiff Hn) as (_ & _ & _ & r'' & E'' & Hp); congruence).
  split; [done|]. by apply Hsame.
Qed.


(** X11. The suspicious keys of the duplicate report come in decreasing
    order of attempt count, the order of [GetDuplicates]' [ORDER BY
    attempt_count DESC]. *)
Theorem suspicious_keys_desc (merchantID : string) (from to : Z) (db : DB) :
  Sorted (fun a b => SuspiciousKey.AttemptCount b <= SuspiciousKey.AttemptCount a)
    (DuplicateReport.SuspiciousKeys (GetDuplicateReport merchantID from to db)).
Proof.
  assert (Hs : StronglySorted attempts_desc (GetDuplicates merchantID from to db)).
  { apply Sorted_StronglySorted; [intros x y z; unfold attempts_desc; lia|].
    apply Sorted_merge_sort; apply _. }
  pose proof (report_loop_suspicious (GetDuplicates merchantID from to db) [] 0 ∅) as H0.
  unfold GetDuplicateReport.
  destruct (GetMerchantStats merchantID from to db) as [total unique].
  destruct (fold_left report_step (GetDuplicates merchantID from to db) ([], 0, ∅))
    as [[s' a'] b']. simpl in H0 |- *. rewrite H0. clear H0.
  apply StronglySorted_Sorted.
  induction Hs as [|d l Hl IH Hall]; simpl; [constructor|].
  rewrite filter_cons. case_decide; [|exact IH].
  rewrite fmap_cons. constructor; [exact IH|].
  apply Forall_forall. intros y Hy. apply list_elem_of_fmap in Hy as (x & -> & Hx).
  apply list_elem_of_filter in Hx as [_ Hx]. rewrite Forall_forall in Hall.
  specialize (Hall x Hx). unfold attempts_desc in Hall. simpl. lia.
Qed.

Lemma append_String (c : ascii) (s t : string) : String c s +:+ t = String c (s +:+ t).
Proof. reflexivity. Qed.

Lemma string_app_assoc (a b c : string) : (a +:+ b) +:+ c = a +:+ b +:+ c.
Proof. induction a as [|x a IH]; [done|]. rewrite !append_String. by rewrite IH. Qed.

Lemma trim_right_slash_app (p t : string) :
  trim_right_slash t ≠ "" → trim_right_slash (p +:+ t) = p +:+ trim_right_slash t.
Proof.
  intros Ht. induction p as [|c p IH]; [done|]. rewrite append_String. cbn [trim_right_slash].
  rewrite IH. destruct (p +:+ trim_right_slash t) eqn:E.
  - destruct p; [exfalso; by apply Ht|]. rewrite append_String in E. discriminate.
  - simpl. rewrite andb_false_r, append_String, E. reflexivity.
Qed.

Lemma split_slash_app (a b : string) :
  no_slash a = true → split_slash (a +:+ String "/" b) = a :: split_slash b.
Proof.
  induction a as [|c a IH]; [done|]. rewrite append_String. cbn [split_slash no_slash].
  intros [Hc Ha]%andb_prop. apply negb_true_iff in Hc. rewrite Hc, IH by done. done.
Qed.

Lemma split_slash_no_slash (a : string) : no_slash a = true → split_slash a = [a].
Proof.
  induction a as [|c a IH]; [done|]. cbn [split_slash no_slash].
  intros [Hc Ha]%andb_prop. apply negb_true_iff in Hc. rewrite Hc, IH by done. done.
Qed.

Lemma path_parts_complete (key : string) :
  no_slash key = true → path_parts (complete_path key) = ["v1"; "payments"; key; "complete"].
Proof.
  intros Hk. unfold path_parts, trim_slash, complete_path.
  change (trim_left_slash ("/v1/payments/" +:+ key +:+ "/complete"))
    with ("v1/payments/" +:+ key +:+ "/complete").
  assert (Ht : trim_right_slash (key +:+ "/complete") = key +:+ "/complete")
    by (rewrite trim_right_slash_app by discriminate; reflexivity).
  rewrite trim_right_slash_app by (rewrite Ht; destruct key; discriminate).
  rewrite Ht.
  change ("v1/payments/" +:+ key +:+ "/complete")
    with ("v1" +:+ String "/" ("payments" +:+ String "/" (key +:+ String "/" "complete"))).
  rewrite (split_slash_app "v1"), (split_slash_app "payments"), split_slash_app
    by done.
  reflexivity.
Qed.


(** X12. PATCH on the completion path of a key without slash answers 422, 404,
    409, 500 or 200 as the completion service decides ([complete_code]: 500
    when the server refuses the body as [jsonb] or the key as text), changes
    nothing unless it answers 200, and then replies with the completed status
    and the key. *)
Theorem CompletePayment_codes (key : string) (creq : CompleteRequest.t) (now : Z) (db : DB) :
  no_slash key = true →
  let '(code, reply, db') := CompletePayment "PATCH" (complete_path key) (Some creq) now db in
  code = complete_code key creq db
  ∧ (code ≠ 200 → db' = db)
  ∧ (code = 200 → reply = [("status", "completed"); ("idempotency_key", key)]
                  ∧ db' = (Service_MarkComplete key creq now db).2).
Proof.
  intros Hk. unfold CompletePayment. rewrite path_parts_complete by done.
  cbn [negb String.eqb Ascii.eqb Bool.eqb length Nat.ltb Nat.leb nth].
  unfold complete_code, Service_MarkComplete, Repo_MarkComplete.
  destruct (String.eqb (CompleteRequest.Status creq) "succeeded");
  [|destruct (String.eqb (CompleteRequest.Status creq) "failed")]; simpl.
  3: { repeat split; done. }
  all: destruct (body_param (CompleteRequest.ResponseBody creq)); simpl;
    [|repeat split; done].
  all: destruct (pg_text_ok key); simpl; [|repeat split; done].
  all: destruct (db !! key); [case_decide|]; simpl; repeat split; done.
Qed.

(** X13. The completion handler reads the key as the third path segment only:
    a key [k1/k2] is handled as the key [k1]. *)
Theorem CompletePayment_key_with_slash (k1 k2 : string) (method : string)
    (body : option CompleteRequest.t) (now : Z) (db : DB) :
  no_slash k1 = true → no_slash k2 = true →
  CompletePayment method (complete_path (k1 +:+ "/" +:+ k2)) body now db
  = CompletePayment method (complete_path k1) body now db.
Proof.
  intros H1 H2. unfold CompletePayment.
  destruct (negb (String.eqb method "PATCH")); [done|].
  rewrite (path_parts_complete k1) by done.
  assert (Hp : path_parts (complete_path (k1 +:+ "/" +:+ k2))
               = ["v1"; "payments"; k1; k2; "complete"]).
  { assert (Hc : complete_path (k1 +:+ "/" +:+ k2)
                 = "/v1/payments/" +:+ k1 +:+ "/" +:+ k2 +:+ "/complete")
      by (unfold complete_path; rewrite !string_app_assoc; reflexivity).
    unfold path_parts, trim_slash. rewrite Hc.
    assert (Hl : trim_left_slash ("/v1/payments/" +:+ k1 +:+ "/" +:+ k2 +:+ "/complete")
                 = "v1/payments/" +:+ k1 +:+ "/" +:+ k2 +:+ "/complete") by reflexivity.
    rewrite Hl.
    assert (Ht : trim_right_slash (k2 +:+ "/complete") = k2 +:+ "/complete")
      by (rewrite trim_right_slash_app by discriminate; reflexivity).
    assert (Ht2 : trim_right_slash ("/" +:+ k2 +:+ "/complete") = "/" +:+ k2 +:+ "/complete")
      by (rewrite trim_right_slash_app by (rewrite Ht; destruct k2; discriminate);
          rewrite Ht; reflexivity).
    assert (Ht1 : trim_right_slash (k1 +:+ "/" +:+ k2 +:+ "/complete")
                  = k1 +:+ "/" +:+ k2 +:+ "/complete")
      by (rewrite trim_right_slash_app by (rewrite Ht2; discriminate);
          rewrite Ht2; reflexivity).
    rewrite trim_right_slash_app by (rewrite Ht1; destruct k1; discriminate).
    rewrite Ht1.
    change ("v1/payments/" +:+ k1 +:+ "/" +:+ k2 +:+ "/complete")
      with ("v1" +:+ String "/" ("payments" +:+ String "/"
              (k1 +:+ String "/" (k2 +:+ String "/" "complete")))).
    rewrite (split_slash_app "v1"), (split_slash_app "payments"), (split_slash_app k1),
      split_slash_app by done.
    reflexivity. }
  rewrite Hp. reflexivity.
Qed.

(** X14. The payments route with a method other than POST, or with a body that
    does not decode, answers 405 or 400 and changes neither the store nor the
    metrics. *)
Theorem RoutePayments_refused (expiryTTL now : Z) (method : string)
    (body : option PaymentRequest.t) (db : DB) (m : Metrics.t) :
  method ≠ "POST" ∨ body = None →
  let '(code, r, db', m') := RoutePayments expiryTTL now method body db m in
  (code = 405 ∨ code = 400) ∧ r = None ∧ db' = db ∧ m' = m.
Proof.
  intros Hb. unfold RoutePayments, HandleProcessPayment.
  destruct (String.eqb_spec method "POST") as [->|Hm]; simpl.
  - destruct Hb as [Hb | ->]; [done|]. simpl. auto.
  - auto.
Qed.

Lemma withMetrics_cases (status now : Z) (m : Metrics.t) :
  withMetrics status now m = m ∨ withMetrics status now m = RecordNew now m
  ∨ withMetrics status now m = RecordCached now m
  ∨ withMetrics status now m = RecordDuplicate now m
  ∨ withMetrics status now m = RecordMismatch now m.
Proof.
  unfold withMetrics.
  destruct (status =? 201); [tauto|]. destruct (status =? 200); [tauto|].
  destruct (status =? 409); [tauto|]. destruct (status =? 422); tauto.
Qed.

(** X15. A call of the payments route never changes the retry counter, adds at
    most one to the total of requests, and keeps the total equal to the sum
    of the new, duplicate, retry, cached and mismatch counters. *)
Theorem RoutePayments_counters (expiryTTL now : Z) (method : string)
    (body : option PaymentRequest.t) (db : DB) (m : Metrics.t) :
  let '(_, _, _, m') := RoutePayments expiryTTL now method body db m in
  Metrics.RetryAllowed m' = Metrics.RetryAllowed m
  ∧ Metrics.TotalRequests m <= Metrics.TotalRequests m' <= Metrics.TotalRequests m + 1
  ∧ (counters_consistent m → counters_consistent m').
Proof.
  unfold RoutePayments. destruct (HandleProcessPayment _ _ _ _ _) as [[code r] db'].
  unfold counters_consistent.
  destruct (withMetrics_cases code now m) as [H|[H|[H|[H|H]]]]; rewrite H;
    unfold RecordNew, RecordCached, RecordDuplicate, RecordMismatch; simpl; lia.
Qed.

Lemma Qle_bool_false_iff (x y : Q) : Qle_bool x y = false ↔ (y < x)%Q.
Proof.
  split.
  - intros H. apply Qnot_le_lt. intros Hle. apply Qle_bool_iff in Hle. congruence.
  - intros H. destruct (Qle_bool x y) eqn:E; [|done].
    apply Qle_bool_iff in E. exfalso. by apply (Qlt_not_le y x).
Qed.

Lemma dup_rate_bounds (d r : Z) :
  0 <= d <= r →
  (0 <= (if 0 <? r then (inject_Z d / inject_Z r * 100)%Q else 0%Q) <= 100)%Q.
Proof.
  intros Hd. destruct (Z.ltb_spec 0 r) as [Hr|Hr];
    [|split; apply Qle_bool_imp_le; reflexivity].
  assert (Hr' : (0 < inject_Z r)%Q)
    by (change (inject_Z 0 < inject_Z r)%Q; rewrite <- Zlt_Qlt; lia).
  split.
  - apply Qmult_le_0_compat; [|apply Qle_bool_imp_le; reflexivity].
    apply Qle_shift_div_l; [done|]. rewrite Qmult_0_l.
    change (inject_Z 0 <= inject_Z d)%Q. rewrite <- Zle_Qle. lia.
  - apply (Qle_trans _ (1 * 100)); [|apply Qle_bool_imp_le; reflexivity].
    apply Qmult_le_compat_r; [|apply Qle_bool_imp_le; reflexivity].
    apply Qle_shift_div_r; [done|]. rewrite Qmult_1_l. rewrite <- Zle_Qle. lia.
Qed.

Lemma Snapshot_ranges (now : Z) (m : Metrics.t) :
  let s := Snapshot now m in
  0 <= MetricsSnapshot.WindowDuplicates s <= MetricsSnapshot.WindowRequests s
  ∧ (0 <= MetricsSnapshot.WindowDupRate s <= 100)%Q
  ∧ (MetricsSnapshot.WindowRequests s = 0 → MetricsSnapshot.WindowDupRate s = 0%Q)
  ∧ (MetricsSnapshot.AnomalyDetected s = true ↔ (20 < MetricsSnapshot.WindowDupRate s)%Q).
Proof.
  unfold Snapshot. cbn [MetricsSnapshot.WindowDuplicates MetricsSnapshot.WindowRequests
    MetricsSnapshot.WindowDupRate MetricsSnapshot.AnomalyDetected].
  set (live := filter _ (Metrics.window m)).
  pose proof (length_filter (fun e : Z * bool => e.2 = true) live) as Hlen.
  assert (Hb : 0 <= Z.of_nat (length (filter (fun e : Z * bool => e.2 = true) live))
               <= Z.of_nat (length live)) by lia.
  split; [exact Hb|split; [by apply dup_rate_bounds|split]].
  - intros ->. reflexivity.
  - rewrite negb_true_iff. apply Qle_bool_false_iff.
Qed.

(** X16. A snapshot counts no more duplicates than requests in its window, has
    a duplicate rate between 0 and 100 that is 0 on an empty window, and
    flags an anomaly exactly when the rate is above 20. *)
Theorem Snapshot_bounds (now : Z) (m : Metrics.t) :
  let s := Snapshot now m in
  0 <= MetricsSnapshot.WindowDuplicates s <= MetricsSnapshot.WindowRequests s
  ∧ (0 <= MetricsSnapshot.WindowDupRate s <= 100)%Q
  ∧ (MetricsSnapshot.WindowRequests s = 0 → MetricsSnapshot.WindowDupRate s = 0%Q)
  ∧ (MetricsSnapshot.AnomalyDetected s = true ↔ (20 < MetricsSnapshot.WindowDupRate s)%Q).
Proof. exact (Snapshot_ranges now m). Qed.

(** X17. [IsAnomalous] holds exactly when the window rate exceeds the
    threshold; at 20 it agrees with the snapshot flag, it never fires for a
    threshold of 100 or more, and always fires for a negative threshold. *)
Theorem IsAnomalous_spec (threshold : Q) (now : Z) (m : Metrics.t) :
  (IsAnomalous threshold now m = true ↔
     (threshold < MetricsSnapshot.WindowDupRate (Snapshot now m))%Q)
  ∧ IsAnomalous 20 now m = MetricsSnapshot.AnomalyDetected (Snapshot now m)
  ∧ ((100 <= threshold)%Q → IsAnomalous threshold now m = false)
  ∧ ((threshold < 0)%Q → IsAnomalous threshold now m = true).
Proof.
  pose proof (Snapshot_ranges now m) as (_ & [H0 H100] & _).
  unfold IsAnomalous. rewrite negb_true_iff, Qle_bool_false_iff.
  split; [done|split; [reflexivity|split]].
  - intros Ht. apply negb_false_iff. apply Qle_bool_iff. by apply (Qle_trans _ 100).
  - intros Ht. by apply (Qlt_le_trans _ 0).
Qed.

(** X18. Pruning the window at any time not after the snapshot time does not
    change the snapshot. *)
Theorem Snapshot_pruned (t now : Z) (m : Metrics.t) :
  t <= now →
  Snapshot now (Metrics.mk (Metrics.TotalRequests m) (Metrics.NewPayments m)
                  (Metrics.DuplicateBlocked m) (Metrics.RetryAllowed m)
                  (Metrics.CachedResponses m) (Metrics.ParamMismatches m)
                  (pruneWindow t (Metrics.window m)))
  = Snapshot now m.
Proof.
  intros Ht. unfold Snapshot, pruneWindow. simpl.
  rewrite live_pruneWindow_from by lia. reflexivity.
Qed.

Example fnv1a64_vectors :
  fnv1a64 (bytes_of_string "") = 14695981039346656037
  ∧ fnv1a64 (bytes_of_string "a") = 12638187200555641996
  ∧ fnv1a64 (bytes_of_string "foobar") = 9625390261332436968.
Proof. vm_compute. auto. Qed.

Lemma fnv_fold_range (bs : list Z) (h : Z) :
  0 <= h < 2 ^ 64 →
  0 <= fold_left (fun h b => (Z.lxor h b * fnv_prime64) mod 2 ^ 64) bs h < 2 ^ 64.
Proof.
  revert h. induction bs as [|b bs IH]; intros h Hh; simpl; [done|].
  apply IH. apply Z.mod_pos_bound. lia.
Qed.

Lemma fnv1a64_range (bs : list Z) : 0 <= fnv1a64 bs < 2 ^ 64.
Proof. apply fnv_fold_range. unfold fnv_offset64. lia. Qed.

Lemma fnv1a64_snoc (bs : list Z) (b : Z) :
  fnv1a64 (bs ++ [b]) = (Z.lxor (fnv1a64 bs) b * fnv_prime64) mod 2 ^ 64.
Proof. unfold fnv1a64. by rewrite fold_left_app. Qed.

Lemma bytes_of_string_snoc (s : string) (a : ascii) :
  bytes_of_string (s +:+ String a "") = bytes_of_string s ++ [Z.of_nat (nat_of_ascii a)].
Proof.
  unfold bytes_of_string. induction s as [|c s IH]; [done|].
  rewrite append_String. simpl. by rewrite IH.
Qed.

Lemma wrap64_inj (x y : Z) :
  0 <= x < 2 ^ 64 → 0 <= y < 2 ^ 64 → wrap64 x = wrap64 y → x = y.
Proof. unfold wrap64. intros Hx Hy H. Z.div_mod_to_equations. lia. Qed.

Lemma wrap64_range (x : Z) : - 2 ^ 63 <= wrap64 x < 2 ^ 63.
Proof. unfold wrap64. pose proof (Z.mod_pos_bound (x + 2 ^ 63) (2 ^ 64)). lia. Qed.

Lemma lxor_range (x y : Z) (n : Z) :
  0 < n → 0 <= x < 2 ^ n → 0 <= y < 2 ^ n → 0 <= Z.lxor x y < 2 ^ n.
Proof.
  intros Hn Hx Hy.
  assert (0 <= Z.lxor x y) by (apply Z.lxor_nonneg; split; lia).
  split; [done|].
  destruct (Z.eq_dec (Z.lxor x y) 0) as [->|Hne]; [lia|].
  assert (0 < Z.lxor x y) by lia.
  apply Z.log2_lt_pow2; [done|].
  pose proof (Z.log2_lxor x y (proj1 Hx) (proj1 Hy)).
  assert (Z.log2 x < n).
  { destruct (Z.eq_dec x 0) as [->|]; [simpl; lia|]. apply Z.log2_lt_pow2; lia. }
  assert (Z.log2 y < n).
  { destruct (Z.eq_dec y 0) as [->|]; [simpl; lia|]. apply Z.log2_lt_pow2; lia. }
  lia.
Qed.

(** The inverse of the FNV prime modulo [2^64]. *)
Lemma fnv_prime64_inverse : (fnv_prime64 * 14886173955864302971) mod 2 ^ 64 = 1.
Proof. vm_compute. reflexivity. Qed.

Lemma mul_prime_inj (x y : Z) :
  0 <= x < 2 ^ 64 → 0 <= y < 2 ^ 64 →
  (x * fnv_prime64) mod 2 ^ 64 = (y * fnv_prime64) mod 2 ^ 64 → x = y.
Proof.
  intros Hx Hy H.
  assert (Hinv : ∀ z, 0 <= z < 2 ^ 64 →
            ((z * fnv_prime64) mod 2 ^ 64 * 14886173955864302971) mod 2 ^ 64 = z).
  { intros z Hz. rewrite Z.mul_mod_idemp_l by lia.
    rewrite <- Z.mul_assoc, <- Z.mul_mod_idemp_r by lia.
    rewrite fnv_prime64_inverse, Z.mul_1_r. by apply Z.mod_small. }
  rewrite <- (Hinv x Hx), <- (Hinv y Hy), H. reflexivity.
Qed.

(** X19. The advisory lock key is a signed 64-bit value, and two strings that
    differ only in their last character get different lock keys. *)
Theorem advisoryLockKey_last_char (s : string) (a b : ascii) :
  - 2 ^ 63 <= advisoryLockKey (s +:+ String a "") < 2 ^ 63
  ∧ (advisoryLockKey (s +:+ String a "") = advisoryLockKey (s +:+ String b "") → a = b).
Proof.
  split; [apply wrap64_range|].
  unfold advisoryLockKey. rewrite !bytes_of_string_snoc, !fnv1a64_snoc.
  intros H. apply wrap64_inj in H; try (apply Z.mod_pos_bound; lia).
  pose proof (fnv1a64_range (bytes_of_string s)) as Hh.
  assert (Hbyte : ∀ c : ascii, 0 <= Z.of_nat (nat_of_ascii c) < 2 ^ 64).
  { intros c. pose proof (nat_ascii_bounded c). lia. }
  apply mul_prime_inj in H; try (apply lxor_range; [lia|done|apply Hbyte]).
  assert (Hab : Z.of_nat (nat_of_ascii a) = Z.of_nat (nat_of_ascii b)).
  { apply (f_equal (Z.lxor (fnv1a64 (bytes_of_string s)))) in H.
    rewrite <- !Z.lxor_assoc, Z.lxor_nilpotent, !Z.lxor_0_l in H. exact H. }
  apply Nat2Z.inj in Hab.
  rewrite <- (ascii_nat_embedding a), <- (ascii_nat_embedding b), Hab. reflexivity.
Qed.

Lemma pretty_N_char_digit (d : N) :
  (d < 10)%N → (Z.of_nat (nat_of_ascii (pretty_N_char d)) - 48) mod 256 = Z.of_N d.
Proof.
  intros Hd.
  assert (d = 0 ∨ d = 1 ∨ d = 2 ∨ d = 3 ∨ d = 4 ∨ d = 5 ∨ d = 6 ∨ d = 7 ∨ d = 8 ∨ d = 9)%N
    as H by lia.
  repeat (destruct H as [->|H]; [reflexivity|]). subst. reflexivity.
Qed.

Lemma atoi_digits_pretty_N_go (x : N) (s : string) :
  atoi_digits 0 (pretty_N_go x s) = atoi_digits (Z.of_N x) s.
Proof.
  revert s. induction x as [x IH] using (well_founded_induction N.lt_wf_0). intros s.
  destruct (decide (x = 0)%N) as [->|Hx]; [by rewrite pretty_N_go_0|].
  rewrite pretty_N_go_step by lia. rewrite IH by (apply N.div_lt; lia).
  cbn [atoi_digits]. rewrite pretty_N_char_digit by (apply N.mod_lt; lia).
  rewrite (proj2 (Z.ltb_ge _ _)) by (pose proof (N.mod_lt x 10); lia).
  f_equal. rewrite (N.div_mod x 10) at 3 by lia. lia.
Qed.

Lemma pretty_N_go_head (x : N) (s : string) :
  (0 < x)%N → ∃ d rest, (d < 10)%N ∧ pretty_N_go x s = String (pretty_N_char d) rest.
Proof.
  revert s. induction x as [x IH] using (well_founded_induction N.lt_wf_0). intros s Hx.
  rewrite pretty_N_go_step by lia.
  destruct (decide (x `div` 10 = 0)%N) as [E|E].
  - rewrite E, pretty_N_go_0. exists (x `mod` 10)%N, s. split; [apply N.mod_lt; lia|done].
  - apply IH; [apply N.div_lt; lia|]. by apply N.neq_0_lt_0.
Qed.

Lemma Atoi_unsigned (d : N) (rest : string) :
  (d < 10)%N →
  Atoi (String (pretty_N_char d) rest) =
    match atoi_digits 0 (String (pretty_N_char d) rest) with
    | Some n => if (- 2 ^ 63 <=? n) && (n <? 2 ^ 63) then Some n else None
    | None => None
    end.
Proof.
  intros Hd.
  assert (d = 0 ∨ d = 1 ∨ d = 2 ∨ d = 3 ∨ d = 4 ∨ d = 5 ∨ d = 6 ∨ d = 7 ∨ d = 8 ∨ d = 9)%N
    as H by lia.
  repeat (destruct H as [->|H]; [reflexivity|]). subst. reflexivity.
Qed.

Lemma Atoi_fmt_d (h : Z) : - 2 ^ 63 <= h < 2 ^ 63 → Atoi (fmt_d h) = Some h.
Proof.
  intros Hh. unfold fmt_d, pretty, pretty_Z.
  destruct h as [|p|p]; [reflexivity| |].
  - unfold pretty, pretty_positive; unfold pretty, pretty_N. rewrite decide_False by done.
    destruct (pretty_N_go_head (Npos p) "") as (d & rest & Hd & E); [lia|].
    rewrite E, Atoi_unsigned by done. rewrite <- E, atoi_digits_pretty_N_go. simpl.
    try rewrite (proj2 (Z.leb_le _ _)) by lia; try rewrite (proj2 (Z.ltb_lt _ _)) by lia; reflexivity.
  - unfold pretty, pretty_positive; unfold pretty, pretty_N. rewrite decide_False by done.
    destruct (pretty_N_go_head (Npos p) "") as (d & rest & Hd & E); [lia|].
    change ("-" +:+ pretty_N_go (N.pos p) "") with (String "-" (pretty_N_go (N.pos p) "")).
    unfold Atoi. rewrite E. cbn [String.eqb]. rewrite <- E, atoi_digits_pretty_N_go.
    simpl. try rewrite (proj2 (Z.leb_le _ _)) by lia; try rewrite (proj2 (Z.ltb_lt _ _)) by lia; reflexivity.
Qed.

Lemma fmt_d_nonempty (h : Z) : fmt_d h ≠ "".
Proof.
  unfold fmt_d, pretty, pretty_Z. destruct h as [|p|p]; [discriminate| |discriminate].
  unfold pretty, pretty_positive; unfold pretty, pretty_N. rewrite decide_False by done.
  destruct (pretty_N_go_head (Npos p) "") as (d & rest & _ & ->); [lia|discriminate].
Qed.

(** X20. When KEY_EXPIRY_HOURS is absent, empty or not a decimal integer,
    [Load] sets the key TTL to 24 hours. *)
Theorem Load_expiry_default (env : Env) :
  Atoi (Getenv env "KEY_EXPIRY_HOURS") = None →
  Config.KeyExpiryTTL (Load env) = 24 * Hour.
Proof.
  intros H. unfold Load, envOrDefault, parseDurationHours. simpl.
  destruct (String.eqb_spec (Getenv env "KEY_EXPIRY_HOURS") "") as [E|E].
  - reflexivity.
  - rewrite H. reflexivity.
Qed.

(** X21. When KEY_EXPIRY_HOURS holds the decimal form of a 64-bit integer h,
    [Load] reads back h and sets the TTL to h hours wrapped to 64 bits, which
    is exactly h hours when h is at most 2562047 in absolute value. *)
Theorem Load_expiry_hours (env : Env) (h : Z) :
  - 2 ^ 63 <= h < 2 ^ 63 →
  Atoi (fmt_d h) = Some h
  ∧ Config.KeyExpiryTTL (Load (<["KEY_EXPIRY_HOURS" := fmt_d h]> env)) = wrap64 (h * Hour)
  ∧ (- 2562047 <= h <= 2562047 →
     Config.KeyExpiryTTL (Load (<["KEY_EXPIRY_HOURS" := fmt_d h]> env)) = h * Hour).
Proof.
  intros Hh. pose proof (Atoi_fmt_d h Hh) as HA.
  assert (HL : Config.KeyExpiryTTL (Load (<["KEY_EXPIRY_HOURS" := fmt_d h]> env))
               = wrap64 (h * Hour)).
  { unfold Load, envOrDefault, Getenv, parseDurationHours. simpl.
    rewrite lookup_insert_eq. simpl.
    rewrite (proj2 (String.eqb_neq _ _) (fmt_d_nonempty h)), HA. reflexivity. }
  split; [done|split; [done|]].
  intros Hs. rewrite HL. apply wrap64_small. unfold Hour. lia.
Qed.

(** X22. [UpdatePolicy] keeps every stored policy under its merchant id, with a
    valid retry policy and expiry hours of 24, 48 or 72. *)
Theorem UpdatePolicy_keeps_valid (method path : string) (body : option MerchantPolicy.t)
    (now : Z) (pdb : PolicyDB) :
  policies_valid pdb → policies_valid (UpdatePolicy method path body now pdb).2.
Proof.
  intros H. unfold UpdatePolicy.
  destruct (negb _ && negb _); [done|].
  destruct (length (path_parts path) <? 4)%nat; [done|].
  destruct (String.eqb method "GET"); [by destruct (GetPolicy _ _)|].
  destruct body as [p|]; [|done]. cbn [MerchantPolicy.RetryPolicy MerchantPolicy.ExpiryHours].
  destruct (validPolicy (MerchantPolicy.RetryPolicy p)) eqn:Hp; [|done].
  destruct (validHours (MerchantPolicy.ExpiryHours p)) eqn:Hh; [|done].
  simpl. unfold UpsertPolicy. simpl. intros k q.
  destruct (decide (nth 2 (path_parts path) "" = k)) as [<-|Hne].
  - rewrite lookup_insert_eq. intros [= <-]. simpl. auto.
  - rewrite lookup_insert_ne by done. apply H.
Qed.



(** * Instances of the further properties *)

Lemma ProcessPayment_frame_witness :
  (ProcessPayment 100 20 reqB dbA).2 !! "A" = dbA !! "A".
Proof.
  apply (ProcessPayment_frame 100 20 reqB dbA "A"); [|discriminate].
  change (map_Forall (fun k r => idempotency_key r = k ∧ 1 <= attempt_count r) dbA).
  apply (bool_decide_unpack _). vm_compute. reflexivity.
Defined.

Lemma store_inv_preserved_witness :
  store_inv (ProcessPayment 100 20 reqA dbA).2
  ∧ store_inv (Service_MarkComplete "A" completeOk 20 dbA).2
  ∧ store_inv (DeleteExpired 20 dbA).2.
Proof.
  apply (store_inv_preserved 100 20 reqA "A" completeOk dbA).
  change (map_Forall (fun k r => idempotency_key r = k ∧ 1 <= attempt_count r) dbA).
  apply (bool_decide_unpack _). vm_compute. reflexivity.
Defined.





Lemma completion_is_final_witness :
  (Service_MarkComplete "A" (CompleteRequest.mk "failed" None) 30
     (Service_MarkComplete "A" completeOk 20 dbA).2).1 ≠ None
  ∧ (Service_MarkComplete "A" (CompleteRequest.mk "failed" None) 30
       (Service_MarkComplete "A" completeOk 20 dbA).2).2
    = (Service_MarkComplete "A" completeOk 20 dbA).2.
Proof.
  apply (completion_is_final "A" completeOk (CompleteRequest.mk "failed" None) 20 30 dbA).
  vm_compute. reflexivity.
Defined.

Lemma CompletePayment_codes_witness :
  no_slash "A" = true ∧
  (let '(code, reply, db') := CompletePayment "PATCH" (complete_path "A") (Some completeOk) 20 dbA in
   code = complete_code "A" completeOk dbA
   ∧ (code ≠ 200 → db' = dbA)
   ∧ (code = 200 → reply = [("status", "completed"); ("idempotency_key", "A")]
                   ∧ db' = (Service_MarkComplete "A" completeOk 20 dbA).2)) ∧
  complete_code "A" completeOk dbA = 200 ∧ complete_code "A" completeNul dbA = 500 ∧
  (let '(code, reply, db') := CompletePayment "PATCH" (complete_path "A") (Some completeNul) 20 dbA in
   code = complete_code "A" completeNul dbA
   ∧ (code ≠ 200 → db' = dbA)
   ∧ (code = 200 → reply = [("status", "completed"); ("idempotency_key", "A")]
                   ∧ db' = (Service_MarkComplete "A" completeNul 20 dbA).2)).
Proof.
  assert (Hk : no_slash "A" = true) by reflexivity.
  assert (H200 : complete_code "A" completeOk dbA = 200) by (vm_compute; reflexivity).
  assert (H500 : complete_code "A" completeNul dbA = 500) by (vm_compute; reflexivity).
  exact (conj Hk (conj (CompletePayment_codes "A" completeOk 20 dbA Hk)
    (conj H200 (conj H500 (CompletePayment_codes "A" completeNul 20 dbA Hk))))).
Defined.

Lemma CompletePayment_key_with_slash_witness :
  CompletePayment "PATCH" (complete_path ("A" +:+ "/" +:+ "B")) (Some completeOk) 20 dbA
  = CompletePayment "PATCH" (complete_path "A") (Some completeOk) 20 dbA.
Proof. apply (CompletePayment_key_with_slash "A" "B" "PATCH" (Some completeOk) 20 dbA); reflexivity. Defined.

Lemma RoutePayments_refused_witness :
  let '(code, r, db', m') := RoutePayments 100 20 "GET" (Some reqA) dbA NewMetrics in
  (code = 405 ∨ code = 400) ∧ r = None ∧ db' = dbA ∧ m' = NewMetrics.
Proof. apply (RoutePayments_refused 100 20 "GET" (Some reqA) dbA NewMetrics). left. discriminate. Defined.

Lemma Snapshot_pruned_witness :
  Metrics.window metrics3 = [(10000000000, false); (200000000000, true)] ∧
  pruneWindow 350000000000 (Metrics.window metrics3) = [(200000000000, true)] ∧
  350000000000 <= 400000000000 ∧
  Snapshot 400000000000 (Metrics.mk (Metrics.TotalRequests metrics3) (Metrics.NewPayments metrics3)
                  (Metrics.DuplicateBlocked metrics3) (Metrics.RetryAllowed metrics3)
                  (Metrics.CachedResponses metrics3) (Metrics.ParamMismatches metrics3)
                  (pruneWindow 350000000000 (Metrics.window metrics3)))
  = Snapshot 400000000000 metrics3.
Proof.
  assert (H : 350000000000 <= 400000000000) by lia.
  split; [vm_compute; reflexivity|]. split; [vm_compute; reflexivity|].
  exact (conj H (Snapshot_pruned 350000000000 400000000000 metrics3 H)).
Defined.

Lemma Load_expiry_default_witness :
  Atoi (Getenv envBadHours "KEY_EXPIRY_HOURS") = None ∧
  Config.KeyExpiryTTL (Load envBadHours) = 24 * Hour.
Proof.
  assert (H : Atoi (Getenv envBadHours "KEY_EXPIRY_HOURS") = None) by (vm_compute; reflexivity).
  exact (conj H (Load_expiry_default envBadHours H)).
Defined.


Lemma advisoryLockKey_last_char_witness :
  - 2 ^ 63 <= advisoryLockKey ("key-" +:+ "1") < 2 ^ 63 ∧
  advisoryLockKey ("key-" +:+ "1") ≠ advisoryLockKey ("key-" +:+ "2").
Proof.
  destruct (advisoryLockKey_last_char "key-" "1" "2") as [Hr Hinj].
  split; [exact Hr|]. intros H. apply Hinj in H. discriminate.
Defined.

Lemma Load_expiry_hours_witness :
  Atoi (fmt_d 48) = Some 48
  ∧ Config.KeyExpiryTTL (Load (<["KEY_EXPIRY_HOURS" := fmt_d 48]> envBadHours)) = wrap64 (48 * Hour)
  ∧ (- 2562047 <= 48 <= 2562047 →
     Config.KeyExpiryTTL (Load (<["KEY_EXPIRY_HOURS" := fmt_d 48]> envBadHours)) = 48 * Hour).
Proof. apply (Load_expiry_hours envBadHours 48). lia. Defined.

Lemma UpdatePolicy_keeps_valid_witness :
  policies_valid (UpdatePolicy "PUT" (policy_path "kubo-brazil") (Some policyBody) 50 pdbSeed).2.
Proof.
  apply (UpdatePolicy_keeps_valid "PUT" (policy_path "kubo-brazil") (Some policyBody) 50 pdbSeed).
  change (map_Forall (fun k p => MerchantPolicy.MerchantID p = k
            ∧ validPolicy (MerchantPolicy.RetryPolicy p) = true
            ∧ validHours (MerchantPolicy.ExpiryHours p) = true) pdbSeed).
  apply (bool_decide_unpack _). vm_compute. reflexivity.
Defined.

